(** * steam-openid-fetch: the relying-party client of [src/index.ts]

  A shallow embedding of [SteamOpenIdClient] (provider selection, redirect
  URL construction, the response-validation pipeline and its nonce store)
  together with the properties its specification states about it.

  Conventions of the embedding.
  - A JavaScript string is a [string]; a character stands for one code
    unit below 256 (so U+00A0 is the character 160).
  - A thrown [Error] is the [Err] case of [result]; the constructors of
    [error] name the throw sites of the source.
  - The client instance is the record [World]: the [nonces] object, the
    instant [Date.now()] returns and the log of the identifiers handed to
    [discover]. The instant is fixed during one synchronous run and is
    moved between calls with [at_time].
  - What the platform and the absent [./discover] module provide is taken
    as parameters: the [URL] constructor, the URL and query serialisers,
    the [Date] constructor and [discover]. Module [Model] gives one
    executable instance of them, used for the concrete runs. *)

From Stdlib Require Import ZArith Ascii String List Lia Bool.
From stdpp Require Import base option gmap strings list fin_maps.

Local Open Scope Z_scope.

(** ** JavaScript strings *)

Module JsString.

(** [!s] for a string [s]: only the empty string is falsy. *)
Definition falsy (s : string) : bool :=
  match s with EmptyString => true | String _ _ => false end.

(** [!v] for a value that is a string, [null] or [undefined]. *)
Definition missing (v : option string) : bool :=
  match v with None => true | Some s => falsy s end.

(** [hay.includes(needle)] *)
Fixpoint includes (hay needle : string) : bool :=
  String.prefix needle hay ||
  match hay with
  | EmptyString => false
  | String _ rest => includes rest needle
  end.

(** [s.indexOf(c)] for a one-character search string, [-1] when absent. *)
Fixpoint indexOf (s : string) (c : ascii) : Z :=
  match s with
  | EmptyString => -1
  | String a rest =>
      if Ascii.eqb a c then 0
      else let i := indexOf rest c in if i =? -1 then -1 else i + 1
  end.

(** [s.slice(0, n)] for [0 <= n]. *)
Definition slice0 (s : string) (n : Z) : string :=
  String.substring 0 (Z.to_nat n) s.

(** White space and line terminators, as [String.prototype.trim] strips
    them: TAB, LF, VT, FF, CR, SP and NBSP. *)
Definition isWhiteSpace (c : ascii) : bool :=
  let n := nat_of_ascii c in
  ((9 <=? n)%nat && (n <=? 13)%nat) || (n =? 32)%nat || (n =? 160)%nat.

Fixpoint trimStart (s : string) : string :=
  match s with
  | EmptyString => EmptyString
  | String c rest => if isWhiteSpace c then trimStart rest else s
  end.

Fixpoint trimEnd (s : string) : string :=
  match s with
  | EmptyString => EmptyString
  | String c rest =>
      let rest' := trimEnd rest in
      if isWhiteSpace c && falsy rest' then EmptyString else String c rest'
  end.

(** [s.trim()] *)
Definition trim (s : string) : string := trimEnd (trimStart s).

(** The text before and after the first occurrence of [c]. *)
Fixpoint splitFirst (c : ascii) (s : string) : option (string * string) :=
  match s with
  | EmptyString => None
  | String a rest =>
      if Ascii.eqb a c then Some (EmptyString, rest)
      else match splitFirst c rest with
           | Some (l, r) => Some (String a l, r)
           | None => None
           end
  end.

(** The pieces of [s] between the occurrences of [c]. *)
Fixpoint splitAll (c : ascii) (s : string) : list string :=
  match s with
  | EmptyString => [EmptyString]
  | String a rest =>
      if Ascii.eqb a c then EmptyString :: splitAll c rest
      else match splitAll c rest with
           | piece :: pieces => String a piece :: pieces
           | [] => [String a EmptyString]
           end
  end.

End JsString.

Import JsString.

(** ** The nonce pattern

  The regular expression of [checkNonce] is anchored at both ends and has
  two groups: a sequence of digit and literal atoms (four digits, a dash,
  two digits, a dash, two digits, [T], two digits, a colon, two digits, a
  colon, two digits, [Z]), then any characters but line terminators up to
  the end of the input. *)

Module NoncePattern.

Inductive atom : Type :=
| Digit
| Lit (c : ascii).

Definition isDigit (c : ascii) : bool :=
  let n := nat_of_ascii c in (48 <=? n)%nat && (n <=? 57)%nat.

Definition atomMatches (a : atom) (c : ascii) : bool :=
  match a with
  | Digit => isDigit c
  | Lit l => Ascii.eqb l c
  end.

(** The text matched by the atoms and what follows it. *)
Fixpoint matchAtoms (p : list atom) (s : string) : option (string * string) :=
  match p with
  | [] => Some (EmptyString, s)
  | a :: p' =>
      match s with
      | EmptyString => None
      | String c rest =>
          if atomMatches a c then
            match matchAtoms p' rest with
            | Some (m, tail) => Some (String c m, tail)
            | None => None
            end
          else None
      end
  end.

(** The characters [.] does not match: LF and CR. *)
Definition isLineTerminator (c : ascii) : bool :=
  let n := nat_of_ascii c in (n =? 10)%nat || (n =? 13)%nat.

Fixpoint dotStar (s : string) : bool :=
  match s with
  | EmptyString => true
  | String c rest => negb (isLineTerminator c) && dotStar rest
  end.

Definition digits (n : nat) : list atom := repeat Digit n.

Definition timestampAtoms : list atom :=
  digits 4 ++ [Lit "-"] ++ digits 2 ++ [Lit "-"] ++ digits 2 ++ [Lit "T"]
  ++ digits 2 ++ [Lit ":"] ++ digits 2 ++ [Lit ":"] ++ digits 2 ++ [Lit "Z"].

(** [s.match(pattern)]: the two capture groups, [None] for [null]. *)
Definition matchNonce (s : string) : option (string * string) :=
  match matchAtoms timestampAtoms s with
  | Some (stamp, tail) => if dotStar tail then Some (stamp, tail) else None
  | None => None
  end.

End NoncePattern.

Import NoncePattern.

(** ** URLs and their query parameters *)

(** [URLSearchParams]: the list of name-value pairs, in order. *)
Abbreviation URLSearchParams := (list (string * string)).

Module SearchParams.

(** [params.get(name)]: the value of the first pair with that name. *)
Fixpoint get (name : string) (l : URLSearchParams) : option string :=
  match l with
  | [] => None
  | (k, v) :: rest => if String.eqb k name then Some v else get name rest
  end.

(** [params.has(name)] *)
Definition has (name : string) (l : URLSearchParams) : bool :=
  match get name l with Some _ => true | None => false end.

(** [params.set(name, value)]: the first pair with that name takes the
    value and the others are removed; without one the pair is appended. *)
Fixpoint set (name value : string) (l : URLSearchParams) : URLSearchParams :=
  match l with
  | [] => [(name, value)]
  | (k, v) :: rest =>
      if String.eqb k name
      then (k, value) :: List.filter (fun kv => negb (String.eqb (fst kv) name)) rest
      else (k, v) :: set name value rest
  end.

End SearchParams.

(** The components of a [URL] object the client reads or writes. *)
Record URL : Type := mkURL {
  protocol : string;
  username : string;
  password : string;
  host : string;
  pathname : string;
  search : string;
  hash : string;
  searchParams : URLSearchParams
}.

(** What the JavaScript platform provides: [new URL(s)] ([None] when it
    throws a [TypeError]), [url.toString()], the serialiser of a parameter
    list that [searchParams.set] writes back into the URL's query, and
    [new Date(s).getTime()] ([None] for [NaN]). *)
Record Platform : Type := mkPlatform {
  newURL : string -> option URL;
  urlToString : URL -> string;
  serializeParams : URLSearchParams -> string;
  dateGetTime : string -> option Z
}.

(** [url.search = ""]: the query and the parameter list are emptied. *)
Definition clearSearch (u : URL) : URL :=
  mkURL (protocol u) (username u) (password u) (host u) (pathname u)
        EmptyString (hash u) [].

(** [url.searchParams.set(key, value)]: the list is updated and written back
    as the URL's query. *)
Definition searchParamsSet (P : Platform) (u : URL) (key value : string) : URL :=
  let l := SearchParams.set key value (searchParams u) in
  let q := serializeParams P l in
  mkURL (protocol u) (username u) (password u) (host u) (pathname u)
        (if falsy q then EmptyString else String "?" q) (hash u) l.

(** ** Results and errors *)

(** Which of the two return URLs failed to parse. *)
Inductive returnUrlSource : Type :=
| OpenIdReturnTo
| ClientReturnUrl.

(** The failures of the client, one constructor per [throw] of
    [src/index.ts]; [InvalidURL] is the [TypeError] of the [URL] constructor
    and [DiscoveryFailed] a rejection of [discover]. *)
Inductive error : Type :=
| NoProvidersFound (identifier : string)
| NoUsableProviders
| MissingEndpoint
| EmptyClientReturnUrl
| MissingReturnToParam
| UnparsableUrl (source : returnUrlSource) (url : string)
| ReturnUrlMismatch
| QueryParamMismatch
| MalformedAssertion
| ProviderError (message : option string)
| AuthenticationCancelled
| MissingNonce
| InvalidNonceFormat
| NonceTimestampUnparsable
| NonceSkewTooLarge
| NonceReplayed
| MissingClaimedIdentifier
| NoProviderForClaimedIdentifier (canonical : string)
| MissingSignature
| InvalidURL (input : string)
| DiscoveryFailed.

(** The text each [Error] of the source starts with. *)
Definition thrownMessage (e : error) : string :=
  match e with
  | NoProvidersFound _ =>
      "No providers found for the given identifier. Identifier: "
  | NoUsableProviders => "No usable providers found for the given identifier"
  | MissingEndpoint => "No provider endpoint specified."
  | EmptyClientReturnUrl => "OpenId Client return url is empty."
  | MissingReturnToParam =>
      "openId.return_to query param is missing in the request URL."
  | UnparsableUrl OpenIdReturnTo _ => "openId.return_to URL ("
  | UnparsableUrl ClientReturnUrl _ => "OpenID Client return url ("
  | ReturnUrlMismatch =>
      "OpenID Client and OpenID return_to URLs do not match."
  | QueryParamMismatch =>
      "Query parameters in OpenID return_to and OpenID Client return URL do not match."
  | MalformedAssertion => "Assertion request is malformed. Empty params."
  | ProviderError message => default "null"%string message
  | AuthenticationCancelled => "Authentication cancelled."
  | MissingNonce => "Missing response nonce."
  | InvalidNonceFormat =>
      "Response nonce has invalid date format or no date at all."
  | NonceTimestampUnparsable =>
      "Response nonce could not been converted to timestamp."
  | NonceSkewTooLarge => "Response nonce is skewed by more than 5 minutes."
  | NonceReplayed => "Response nonce has already been used (replayed)."
  | MissingClaimedIdentifier => "Could not obtain claimed identifier."
  | NoProviderForClaimedIdentifier _ =>
      "No OpenID provider was discovered for the asserted claimed identifier."
  | MissingSignature => "No signature in response."
  | InvalidURL _ => "Invalid URL"
  | DiscoveryFailed => ""
  end.

Inductive result (A : Type) : Type :=
| Ok (a : A)
| Err (e : error).

Arguments Ok {A} a.
Arguments Err {A} e.

#[global] Instance result_ret : MRet result := fun A a => Ok a.
#[global] Instance result_bind : MBind result :=
  fun A B f m => match m with Ok a => f a | Err e => Err e end.
#[global] Instance result_throw : MThrow error result := fun A e => Err e.

(** ** The client instance and its environment *)

Definition FIVE_MINUTES_IN_MS : Z := 300000.

(** The [nonces] object (own properties only), the instant [Date.now()]
    returns, and the identifiers [discover] has been called with, oldest
    first. *)
Record World : Type := mkWorld {
  nonces : gmap string Z;
  now : Z;
  queries : list string
}.

(** A client just constructed: [nonces = {}]. *)
Definition newClient (t : Z) : World := mkWorld ∅ t [].

(** Time passes between two calls. *)
Definition at_time (t : Z) (w : World) : World :=
  mkWorld (nonces w) t (queries w).

(** Computations that read and write the client instance and may throw. *)
Definition M (A : Type) : Type := World -> result A * World.

#[global] Instance M_ret : MRet M := fun A a w => (Ok a, w).
#[global] Instance M_bind : MBind M :=
  fun A B f m w =>
    match m w with
    | (Ok a, w') => f a w'
    | (Err e, w') => (Err e, w')
    end.
#[global] Instance M_throw : MThrow error M := fun A e w => (Err e, w).

(** A computation that only throws or returns. *)
Definition lift {A : Type} (r : result A) : M A := fun w => (r, w).

(** [Date.now()] *)
Definition dateNow : M Z := fun w => (Ok (now w), w).

(** The names every object inherits from [Object.prototype]; the [in]
    operator finds them as well as the own properties. *)
Definition objectPrototypeKeys : list string :=
  ["constructor"; "__defineGetter__"; "__defineSetter__"; "hasOwnProperty";
   "__lookupGetter__"; "__lookupSetter__"; "isPrototypeOf";
   "propertyIsEnumerable"; "toString"; "valueOf"; "__proto__";
   "toLocaleString"].

(** [key in obj] *)
Definition hasProperty (key : string) (obj : gmap string Z) : bool :=
  match obj !! key with
  | Some _ => true
  | None => existsb (String.eqb key) objectPrototypeKeys
  end.

(** ** Discovery *)

Record Provider : Type := mkProvider {
  endpoint : option string;
  version : option string
}.

(** The outcome of [await discover(identifier)]: a rejection, or a provider
    list that may be absent. *)
Inductive discovery : Type :=
| Rejected
| Resolved (providers : option (list Provider)).

(** [!providers || providers.length === 0] *)
Definition noProviders (providers : option (list Provider)) : bool :=
  match providers with
  | None => true
  | Some [] => true
  | Some (_ :: _) => false
  end.

Record ProviderResponse : Type := mkProviderResponse {
  authenticated : option bool;
  claimedIdentifier : option string
}.

(** ** The client: [SteamOpenIdClient] *)

Section Client.

Variable P : Platform.
Variable discover : string -> discovery.

(** [await discover(identifier)], with the call recorded. *)
Definition callDiscover (identifier : string) : M (option (list Provider)) :=
  fun w =>
    let w' := mkWorld (nonces w) (now w) (queries w ++ [identifier]) in
    match discover identifier with
    | Rejected => (Err DiscoveryFailed, w')
    | Resolved providers => (Ok providers, w')
    end.

(** [parseURL]: the helper that never throws. *)
Definition parseURL (val : string) : option URL := newURL P val.

(** [buildUrl(theUrl, params)]; [params] is an object literal, so it is
    truthy and its keys are visited in the order they were written. *)
Definition buildUrl (theUrl : string) (params : list (string * string))
  : result string :=
  match newURL P theUrl with
  | None => mthrow (InvalidURL theUrl)
  | Some parsedUrl =>
      let cleared := clearSearch parsedUrl in
      mret (urlToString P
              (fold_left (fun u kv => searchParamsSet P u (fst kv) (snd kv))
                         params cleared))
  end.

(** The parameters of a [checkid_setup] request. *)
Definition authenticationParams (returnUrl : string) : list (string * string) :=
  [("openid.mode", "checkid_setup");
   ("openid.ns", "http://specs.openid.net/auth/2.0");
   ("openid.claimed_id", "http://specs.openid.net/auth/2.0/identifier_select");
   ("openid.identity", "http://specs.openid.net/auth/2.0/identifier_select");
   ("openid.return_to", returnUrl)].

(** [requestAuthentication(provider, returnUrl)] *)
Definition requestAuthentication (provider : Provider) (returnUrl : string)
  : result string :=
  let params := authenticationParams returnUrl in
  if missing (endpoint provider) then mthrow MissingEndpoint
  else
    match endpoint provider with
    | Some theUrl => buildUrl theUrl params
    | None => mthrow MissingEndpoint
    end.

(** [chooseProvider(providers, returnUrl)]: the [while] loop over the
    indices, read as a recursion on the providers not yet visited. A throw of
    [requestAuthentication] is not caught: it leaves the loop. *)
Fixpoint chooseProvider (providers : list Provider) (returnUrl : string)
  : result string :=
  match providers with
  | [] => mthrow NoUsableProviders
  | currentProvider :: rest =>
      authUrl ← requestAuthentication currentProvider returnUrl;
      if falsy authUrl then chooseProvider rest returnUrl else mret authUrl
  end.

(** [authenticate(identifier, returnUrl)] *)
Definition authenticate (identifier returnUrl : string) : M string :=
  providers ← callDiscover identifier;
  if noProviders providers then mthrow (NoProvidersFound identifier)
  else lift (chooseProvider (default [] providers) returnUrl).

(** [checkReturnUrlsAreValid(openIdReturnUrl, clientReturnUrl)] *)
Definition checkReturnUrlsAreValid (openIdReturnUrl : URL)
    (clientReturnUrl : string) : result unit :=
  if falsy clientReturnUrl then mthrow EmptyClientReturnUrl
  else
    match SearchParams.get "openid.return_to" (searchParams openIdReturnUrl) with
    | None => mthrow MissingReturnToParam
    | Some openIdReturnTo =>
        if falsy openIdReturnTo then mthrow MissingReturnToParam
        else
          match parseURL openIdReturnTo with
          | None => mthrow (UnparsableUrl OpenIdReturnTo openIdReturnTo)
          | Some parsedOpenIdReturnTo =>
              match parseURL clientReturnUrl with
              | None => mthrow (UnparsableUrl ClientReturnUrl clientReturnUrl)
              | Some parsedClientReturnUrl =>
                  if negb (String.eqb (protocol parsedClientReturnUrl)
                                      (protocol parsedOpenIdReturnTo))
                     || negb (String.eqb (host parsedClientReturnUrl)
                                         (host parsedOpenIdReturnTo))
                     || negb (String.eqb (pathname parsedClientReturnUrl)
                                         (pathname parsedOpenIdReturnTo))
                  then mthrow ReturnUrlMismatch
                  else if negb (falsy (search openIdReturnUrl))
                          && negb (falsy (search parsedClientReturnUrl))
                          && negb (includes (search openIdReturnUrl)
                                            (search parsedClientReturnUrl))
                  then mthrow QueryParamMismatch
                  else mret tt
              end
          end
    end.

(** [removeOldNonces()]: the [for ... in] loop over the properties of
    [this.nonces], deleting in the object it runs over. Each turn reads
    [Date.now()], the instant of the run. *)
Definition removeOldNonces : M unit :=
  fun w =>
    let swept :=
      map_fold
        (fun (nonce : string) (date : Z) (obj : gmap string Z) =>
           if Z.abs (now w - date) >? FIVE_MINUTES_IN_MS
           then delete nonce obj else obj)
        (nonces w) (nonces w) in
    (Ok tt, mkWorld swept (now w) (queries w)).

(** [this.nonces[nonce] = date] *)
Definition storeNonce (nonce : string) (timestamp : Z) : M unit :=
  fun w => (Ok tt, mkWorld (<[nonce := timestamp]> (nonces w)) (now w) (queries w)).

(** [nonce in this.nonces] *)
Definition nonceKnown (nonce : string) : M bool :=
  fun w => (Ok (hasProperty nonce (nonces w)), w).

(** [params.has("openid.ns") && !params.get("openid.ns")?.includes("2.0")] *)
Definition isOpenId1 (params : URLSearchParams) : bool :=
  SearchParams.has "openid.ns" params
  && negb (match SearchParams.get "openid.ns" params with
           | Some ns => includes ns "2.0"
           | None => false
           end).

(** [checkNonce(params)] *)
Definition checkNonce (params : URLSearchParams) : M unit :=
  if isOpenId1 params then mret tt
  else
    match SearchParams.get "openid.response_nonce" params with
    | None => mthrow MissingNonce
    | Some nonce =>
        if falsy nonce then mthrow MissingNonce
        else
          match matchNonce (trim nonce) with
          | None => mthrow InvalidNonceFormat
          | Some (nonceDate, _) =>
              if falsy nonceDate || includes nonceDate "."
              then mthrow InvalidNonceFormat
              else
                match dateGetTime P nonceDate with
                | None => mthrow NonceTimestampUnparsable
                | Some timestamp =>
                    removeOldNonces;;
                    t ← dateNow;
                    if Z.abs (t - timestamp) >? FIVE_MINUTES_IN_MS
                    then mthrow NonceSkewTooLarge
                    else
                      known ← nonceKnown nonce;
                      if (known : bool) then mthrow NonceReplayed
                      else storeNonce nonce timestamp
                end
          end
    end.

(** [checkParams(params)] *)
Definition checkParams (params : option URLSearchParams) : result unit :=
  match params with
  | None => mthrow MalformedAssertion
  | Some params =>
      if bool_decide (SearchParams.get "openid.mode" params = Some "error")
      then mthrow (ProviderError (SearchParams.get "openid.error" params))
      else if bool_decide (SearchParams.get "openid.mode" params = Some "cancel")
      then mthrow AuthenticationCancelled
      else mret tt
  end.

(** [getCanonicalClaimedIdentifier(claimedIdentifier)] *)
Definition getCanonicalClaimedIdentifier (claimedIdentifier : string) : string :=
  let index := indexOf claimedIdentifier "#" in
  if negb (index =? -1) then slice0 claimedIdentifier (Z.max 0 index)
  else claimedIdentifier.

(** [verifyDiscoveredInformation(params)] *)
Definition verifyDiscoveredInformation (params : URLSearchParams)
  : M ProviderResponse :=
  match SearchParams.get "openid.claimed_id" params with
  | None => mthrow MissingClaimedIdentifier
  | Some claimedIdentifier =>
      if falsy claimedIdentifier then mthrow MissingClaimedIdentifier
      else
        let canonicalClaimedIdentifier :=
          getCanonicalClaimedIdentifier claimedIdentifier in
        providers ← callDiscover canonicalClaimedIdentifier;
        if noProviders providers
        then mthrow (NoProviderForClaimedIdentifier canonicalClaimedIdentifier)
        else if missing (SearchParams.get "openid.signed" params)
                || missing (SearchParams.get "openid.sig" params)
        then mthrow MissingSignature
        else mret (mkProviderResponse
                     (Some true)
                     (SearchParams.get "openid.claimed_id" params))
  end.

(** [validateResponse(responseUrl, returnUrl)] *)
Definition validateResponse (responseUrl returnUrl : string)
  : M ProviderResponse :=
  match newURL P (trim responseUrl) with
  | None => mthrow (InvalidURL (trim responseUrl))
  | Some assertionUrl =>
      let params := searchParams assertionUrl in
      lift (checkReturnUrlsAreValid assertionUrl returnUrl);;
      lift (checkParams (Some params));;
      checkNonce params;;
      verifyDiscoveredInformation params
  end.

End Client.

(** ** An executable platform

    One instance of [Platform], for running the client on concrete inputs.
    [Model.newURL] reads URLs of the shape [scheme://host/path?query#fragment]
    with a lower-case scheme and host and no credentials, and rejects a string
    without [scheme://] as the URL constructor does; [Model.dateGetTime] reads
    a date-time [YYYY-MM-DDTHH:MM:SSZ] with legal elements as milliseconds
    since the epoch. *)

Module Model.

Definition isLowerAlpha (c : ascii) : bool :=
  let n := nat_of_ascii c in (97 <=? n)%nat && (n <=? 122)%nat.

Definition isUpperAlpha (c : ascii) : bool :=
  let n := nat_of_ascii c in (65 <=? n)%nat && (n <=? 90)%nat.

Definition isSchemeChar (c : ascii) : bool :=
  isLowerAlpha c || isDigit c || Ascii.eqb c "+" || Ascii.eqb c "-"
  || Ascii.eqb c ".".

Fixpoint allChars (f : ascii -> bool) (s : string) : bool :=
  match s with
  | EmptyString => true
  | String c rest => f c && allChars f rest
  end.

Definition isScheme (s : string) : bool :=
  match s with
  | EmptyString => false
  | String c rest => isLowerAlpha c && allChars isSchemeChar rest
  end.

Definition hexVal (c : ascii) : option nat :=
  let n := nat_of_ascii c in
  if isDigit c then Some (n - 48)%nat
  else if (97 <=? n)%nat && (n <=? 102)%nat then Some (n - 87)%nat
  else if (65 <=? n)%nat && (n <=? 70)%nat then Some (n - 55)%nat
  else None.

(** Decoding of a query name or value: [+] is a space and [%XX] a byte. *)
Fixpoint formDecode (s : string) : string :=
  match s with
  | EmptyString => EmptyString
  | String c rest =>
      if Ascii.eqb c "+" then String " " (formDecode rest)
      else if Ascii.eqb c "%" then
        match rest with
        | String h (String l rest') =>
            match hexVal h, hexVal l with
            | Some a, Some b =>
                String (ascii_of_nat (16 * a + b)) (formDecode rest')
            | _, _ => String c (formDecode rest)
            end
        | _ => String c (formDecode rest)
        end
      else String c (formDecode rest)
  end.

(** The parameter list of a query string. *)
Definition parseQuery (query : string) : URLSearchParams :=
  flat_map
    (fun piece =>
       if falsy piece then []
       else match splitFirst "=" piece with
            | Some (k, v) => [(formDecode k, formDecode v)]
            | None => [(formDecode piece, EmptyString)]
            end)
    (splitAll "&" query).

Definition newURL (input : string) : option URL :=
  let '(beforeHash, fragment) :=
    match splitFirst "#" input with
    | Some (b, f) => (b, f)
    | None => (input, EmptyString)
    end in
  let '(beforeQuery, query) :=
    match splitFirst "?" beforeHash with
    | Some (b, q) => (b, q)
    | None => (beforeHash, EmptyString)
    end in
  match splitFirst ":" beforeQuery with
  | Some (scheme, String "/" (String "/" afterSlashes)) =>
      let '(authority, path) :=
        match splitFirst "/" afterSlashes with
        | Some (a, p) => (a, String "/" p)
        | None => (afterSlashes, "/"%string)
        end in
      if isScheme scheme && negb (falsy authority)
      then Some (mkURL (scheme ++ ":") EmptyString EmptyString authority path
                       (if falsy query then EmptyString else String "?" query)
                       (if falsy fragment then EmptyString
                        else String "#" fragment)
                       (parseQuery query))
      else None
  | _ => None
  end.

Definition urlToString (u : URL) : string :=
  (protocol u ++ "//" ++ host u ++ pathname u ++ search u ++ hash u)%string.

Definition hexDigit (n : nat) : ascii :=
  if (n <? 10)%nat then ascii_of_nat (48 + n) else ascii_of_nat (55 + n).

(** Encoding of a query name or value: letters, digits and [*-._] stay, a
    space is [+], any other byte is [%XX]. *)
Fixpoint formEncode (s : string) : string :=
  match s with
  | EmptyString => EmptyString
  | String c rest =>
      if isLowerAlpha c || isUpperAlpha c || isDigit c || Ascii.eqb c "*"
         || Ascii.eqb c "-" || Ascii.eqb c "." || Ascii.eqb c "_"
      then String c (formEncode rest)
      else if Ascii.eqb c " " then String "+" (formEncode rest)
      else
        let n := nat_of_ascii c in
        String "%" (String (hexDigit (n / 16))
                      (String (hexDigit (n mod 16)) (formEncode rest)))
  end.

Fixpoint serializeParams (l : URLSearchParams) : string :=
  match l with
  | [] => EmptyString
  | [(k, v)] => (formEncode k ++ "=" ++ formEncode v)%string
  | (k, v) :: rest =>
      (formEncode k ++ "=" ++ formEncode v ++ "&" ++ serializeParams rest)%string
  end.

(** The number written by a string of digits. *)
Definition number (s : string) : Z :=
  fold_left (fun acc c => 10 * acc + (Z.of_nat (nat_of_ascii c) - 48))
            (list_ascii_of_string s) 0.

Definition isLeapYear (y : Z) : bool :=
  ((y mod 4 =? 0) && negb (y mod 100 =? 0)) || (y mod 400 =? 0).

Definition daysInMonth (y m : Z) : Z :=
  if m =? 2 then (if isLeapYear y then 29 else 28)
  else if (m =? 4) || (m =? 6) || (m =? 9) || (m =? 11) then 30
  else 31.

(** Days from 1970-01-01 to the given civil date. *)
Definition daysFromCivil (y m d : Z) : Z :=
  let y' := if m <=? 2 then y - 1 else y in
  let era := y' / 400 in
  let yoe := y' - era * 400 in
  let doy := (153 * (if m >? 2 then m - 3 else m + 9) + 2) / 5 + d - 1 in
  let doe := yoe * 365 + yoe / 4 - yoe / 100 + doy in
  era * 146097 + doe - 719468.

Definition dateGetTime (s : string) : option Z :=
  match matchAtoms timestampAtoms s with
  | Some (_, EmptyString) =>
      let y := number (String.substring 0 4 s) in
      let m := number (String.substring 5 2 s) in
      let d := number (String.substring 8 2 s) in
      let hh := number (String.substring 11 2 s) in
      let mm := number (String.substring 14 2 s) in
      let ss := number (String.substring 17 2 s) in
      if (1 <=? m) && (m <=? 12) && (1 <=? d) && (d <=? daysInMonth y m)
         && ((hh <=? 23) || ((hh =? 24) && (mm =? 0) && (ss =? 0)))
         && (mm <=? 59) && (ss <=? 59)
      then Some ((((daysFromCivil y m d * 24 + hh) * 60 + mm) * 60 + ss) * 1000)
      else None
  | _ => None
  end.

Definition platform : Platform :=
  mkPlatform newURL urlToString serializeParams dateGetTime.

(** A discovery that knows the Steam provider for every identifier under
    [https://steamcommunity.com/openid] and nothing else. *)
Definition discover (identifier : string) : discovery :=
  if String.prefix "https://steamcommunity.com/openid" identifier
  then Resolved (Some [mkProvider
                         (Some "https://steamcommunity.com/openid/login"%string)
                         (Some "http://specs.openid.net/auth/2.0"%string)])
  else Resolved None.

End Model.


(** ** Notions the properties are stated with *)

(** The store after the sweep of [removeOldNonces]. *)
Definition sweptNonces (w : World) : gmap string Z :=
  nonces (snd (removeOldNonces w)).

(** Every entry is within the freshness window of the instant [t]. *)
Definition freshAt (t : Z) (store : gmap string Z) : Prop :=
  forall (k : string) (d : Z),
    store !! k = Some d -> Z.abs (t - d) <= FIVE_MINUTES_IN_MS.

(** The timestamp embedded in a nonce token, as [checkNonce] reads it. *)
Definition embeddedTimestamp (P : Platform) (nonce : string) : option Z :=
  match matchNonce (trim nonce) with
  | Some (nonceDate, _) => dateGetTime P nonceDate
  | None => None
  end.

(** Every entry maps a token to its embedded timestamp. *)
Definition stampedBy (P : Platform) (store : gmap string Z) : Prop :=
  forall (k : string) (d : Z),
    store !! k = Some d -> embeddedTimestamp P k = Some d.

(** A call on the client, or the clock moving between two calls. *)
Inductive call : Type :=
| CallAuthenticate (discover : string -> discovery)
    (identifier returnUrl : string)
| CallValidateResponse (discover : string -> discovery)
    (responseUrl returnUrl : string)
| ClockMoves (t : Z).

(** The client after one more call. *)
Definition step (P : Platform) (w : World) (c : call) : World :=
  match c with
  | CallAuthenticate discover identifier returnUrl =>
      snd (authenticate P discover identifier returnUrl w)
  | CallValidateResponse discover responseUrl returnUrl =>
      snd (validateResponse P discover responseUrl returnUrl w)
  | ClockMoves t => at_time t w
  end.

(** The client constructed at [t0] after a sequence of calls. *)
Definition run (P : Platform) (t0 : Z) (calls : list call) : World :=
  fold_left (step P) calls (newClient t0).

(** The return-URL rule in the words of the specification: the query
    parameters of the return URL, as they are written in its query string,
    and the requirement that each of them is a substring of the query string
    of the response URL. *)
Definition queryParameters (search : string) : list string :=
  List.filter (fun piece => negb (falsy piece))
    (splitAll "&" (match search with
                   | String "?" query => query
                   | _ => search
                   end)).

Definition everyParameterAppears (returnSearch responseSearch : string) : bool :=
  forallb (includes responseSearch) (queryParameters returnSearch).

(** The URL [buildUrl] serialises for a [checkid_setup] request: the
    endpoint with its query replaced by the request parameters. *)
Definition requestUrl (P : Platform) (parsedUrl : URL) (returnUrl : string)
  : URL :=
  mkURL (protocol parsedUrl) (username parsedUrl) (password parsedUrl)
        (host parsedUrl) (pathname parsedUrl)
        (let query := serializeParams P (authenticationParams returnUrl) in
         if falsy query then EmptyString else String "?" query)
        (hash parsedUrl) (authenticationParams returnUrl).

(** The step of [validateResponse] an error is thrown in: the [URL]
    constructor, [checkReturnUrlsAreValid], [checkParams], [checkNonce] or
    [verifyDiscoveredInformation]; [None] for the errors only [authenticate]
    throws. *)
Inductive validationStage : Type :=
| ParseStage
| BindingStage
| ParamsStage
| NonceStage
| VerificationStage.

Definition failedStage (e : error) : option validationStage :=
  match e with
  | InvalidURL _ => Some ParseStage
  | EmptyClientReturnUrl | MissingReturnToParam | UnparsableUrl _ _
  | ReturnUrlMismatch | QueryParamMismatch => Some BindingStage
  | MalformedAssertion | ProviderError _ | AuthenticationCancelled =>
      Some ParamsStage
  | MissingNonce | InvalidNonceFormat | NonceTimestampUnparsable
  | NonceSkewTooLarge | NonceReplayed => Some NonceStage
  | MissingClaimedIdentifier | NoProviderForClaimedIdentifier _
  | MissingSignature | DiscoveryFailed => Some VerificationStage
  | NoProvidersFound _ | NoUsableProviders | MissingEndpoint => None
  end.

(** The [search] of a URL whose parameter list has been written back. *)
Definition writtenSearch (P : Platform) (l : URLSearchParams) : string :=
  let query := serializeParams P l in
  if falsy query then EmptyString else String "?" query.

(** A string of white space only. *)
Fixpoint allWhiteSpace (s : string) : bool :=
  match s with
  | EmptyString => true
  | String c rest => isWhiteSpace c && allWhiteSpace rest
  end.

(** ** Concrete runs *)

Module Scenario.

Local Open Scope string_scope.

Definition returnUrl : string := "https://a.example/cb".

(** A positive assertion in OpenID 2.0 mode, nonce stamped
    2024-01-01T00:00:00Z, claimed identifier with a fragment. *)
Definition responseUrl : string :=
  "https://a.example/cb?openid.ns=http%3A%2F%2Fspecs.openid.net%2Fauth%2F2.0"
  ++ "&openid.mode=id_res&openid.return_to=https%3A%2F%2Fa.example%2Fcb"
  ++ "&openid.response_nonce=2024-01-01T00%3A00%3A00Zabc"
  ++ "&openid.claimed_id=https%3A%2F%2Fsteamcommunity.com%2Fopenid%2Fid%2F"
  ++ "76561198000000000%23frag"
  ++ "&openid.signed=signed%2Cop_endpoint&openid.sig=c2ln".

(** The same assertion with a space in front of the nonce. *)
Definition responseUrlPadded : string :=
  "https://a.example/cb?openid.ns=http%3A%2F%2Fspecs.openid.net%2Fauth%2F2.0"
  ++ "&openid.mode=id_res&openid.return_to=https%3A%2F%2Fa.example%2Fcb"
  ++ "&openid.response_nonce=%202024-01-01T00%3A00%3A00Zabc"
  ++ "&openid.claimed_id=https%3A%2F%2Fsteamcommunity.com%2Fopenid%2Fid%2F"
  ++ "76561198000000000%23frag"
  ++ "&openid.signed=signed%2Cop_endpoint&openid.sig=c2ln".

(** The user cancelled at the provider. *)
Definition cancelUrl : string :=
  "https://a.example/cb?openid.mode=cancel"
  ++ "&openid.return_to=https%3A%2F%2Fa.example%2Fcb".

(** 2024-01-01T00:00:00Z in milliseconds since the epoch. *)
Definition stamp : Z := 1704067200000.

(** A client constructed one minute after the nonce was issued. *)
Definition client : World := newClient (stamp + 60000).

(** The parameters of a 2.0 response that matter to [checkNonce]. *)
Definition nonceParams : URLSearchParams :=
  [("openid.ns", "http://specs.openid.net/auth/2.0");
   ("openid.response_nonce", "2024-01-01T00:00:00Zabc")].

(** A return URL with a parameter of its own, a response that puts the
    provider's parameters after it, and one that puts them in front. *)
Definition returnUrlWithQuery : string := "https://a.example/cb?a=1".

Definition responseUrlAppended : string :=
  "https://a.example/cb?a=1&openid.mode=id_res"
  ++ "&openid.return_to=https%3A%2F%2Fa.example%2Fcb%3Fa%3D1".

Definition responseUrlReordered : string :=
  "https://a.example/cb?openid.mode=id_res"
  ++ "&openid.return_to=https%3A%2F%2Fa.example%2Fcb%3Fa%3D1&a=1".

(** Discovery answers of one provider: the Steam endpoint, the same with a
    query of its own, and an endpoint that is not an absolute URL. *)
Definition steamProvider : Provider :=
  mkProvider (Some "https://steamcommunity.com/openid/login") None.

Definition steamProviderWithQuery : Provider :=
  mkProvider (Some "https://steamcommunity.com/openid/login?lang=en") None.

Definition relativeProvider : Provider :=
  mkProvider (Some "steamcommunity.com/openid/login") None.

Definition answer (providers : list Provider) (_ : string) : discovery :=
  Resolved (Some providers).

(** The redirect URL for the Steam endpoint and [returnUrl]. *)
Definition steamRedirect : string :=
  "https://steamcommunity.com/openid/login?openid.mode=checkid_setup"
  ++ "&openid.ns=http%3A%2F%2Fspecs.openid.net%2Fauth%2F2.0"
  ++ "&openid.claimed_id=http%3A%2F%2Fspecs.openid.net%2Fauth%2F2.0"
  ++ "%2Fidentifier_select"
  ++ "&openid.identity=http%3A%2F%2Fspecs.openid.net%2Fauth%2F2.0"
  ++ "%2Fidentifier_select"
  ++ "&openid.return_to=https%3A%2F%2Fa.example%2Fcb".

(** The claimed identifier of [responseUrl], before and with its fragment. *)
Definition steamId : string :=
  "https://steamcommunity.com/openid/id/76561198000000000".

Definition verified : ProviderResponse :=
  mkProviderResponse (Some true) (Some (steamId ++ "#frag")).

(** [validateResponse] on the executable platform. *)
Definition validate (responseUrl returnUrl : string) : M ProviderResponse :=
  validateResponse Model.platform Model.discover responseUrl returnUrl.

(** The first validation of [responseUrl], one minute after its nonce was
    issued. *)
Definition first : result ProviderResponse * World :=
  validate responseUrl returnUrl client.

(** The assertion of [responseUrl] without its [openid.sig]. *)
Definition responseUrlUnsigned : string :=
  "https://a.example/cb?openid.ns=http%3A%2F%2Fspecs.openid.net%2Fauth%2F2.0"
  ++ "&openid.mode=id_res&openid.return_to=https%3A%2F%2Fa.example%2Fcb"
  ++ "&openid.response_nonce=2024-01-01T00%3A00%3A00Zabc"
  ++ "&openid.claimed_id=https%3A%2F%2Fsteamcommunity.com%2Fopenid%2Fid%2F"
  ++ "76561198000000000%23frag"
  ++ "&openid.signed=signed%2Cop_endpoint".

(** The assertion of [responseUrl] with other signature values. *)
Definition responseUrlForged : string :=
  "https://a.example/cb?openid.ns=http%3A%2F%2Fspecs.openid.net%2Fauth%2F2.0"
  ++ "&openid.mode=id_res&openid.return_to=https%3A%2F%2Fa.example%2Fcb"
  ++ "&openid.response_nonce=2024-01-01T00%3A00%3A00Zabc"
  ++ "&openid.claimed_id=https%3A%2F%2Fsteamcommunity.com%2Fopenid%2Fid%2F"
  ++ "76561198000000000%23frag"
  ++ "&openid.signed=x&openid.sig=AAAA".

(** The query of [responseUrl] on another host and path. *)
Definition responseUrlElsewhere : string :=
  "https://evil.example/other?openid.ns=http%3A%2F%2Fspecs.openid.net%2Fauth%2F2.0"
  ++ "&openid.mode=id_res&openid.return_to=https%3A%2F%2Fa.example%2Fcb"
  ++ "&openid.response_nonce=2024-01-01T00%3A00%3A00Zabc"
  ++ "&openid.claimed_id=https%3A%2F%2Fsteamcommunity.com%2Fopenid%2Fid%2F"
  ++ "76561198000000000%23frag"
  ++ "&openid.signed=signed%2Cop_endpoint&openid.sig=c2ln".

(** A positive assertion in OpenID 1.1 mode; it carries no nonce. *)
Definition responseUrl1x : string :=
  "https://a.example/cb?openid.ns=http%3A%2F%2Fopenid.net%2Fsignon%2F1.1"
  ++ "&openid.mode=id_res&openid.return_to=https%3A%2F%2Fa.example%2Fcb"
  ++ "&openid.claimed_id=https%3A%2F%2Fsteamcommunity.com%2Fopenid%2Fid%2F"
  ++ "76561198000000000"
  ++ "&openid.signed=signed%2Cop_endpoint&openid.sig=c2ln".

Definition verified1x : ProviderResponse :=
  mkProviderResponse (Some true) (Some steamId).

(** The provider reports an error. *)
Definition responseUrlError : string :=
  "https://a.example/cb?openid.mode=error&openid.error=denied"
  ++ "&openid.return_to=https%3A%2F%2Fa.example%2Fcb".

(** A response whose [openid.return_to] names another path. *)
Definition responseUrlOtherPath : string :=
  "https://a.example/cb?openid.mode=id_res"
  ++ "&openid.return_to=https%3A%2F%2Fa.example%2Fcb2".

(** Request parameters with distinct keys, as an object literal has. *)
Definition someParams : list (string * string) :=
  [("b", "2"); ("a", "1 1"); ("c", "")].

End Scenario.

(** * Properties *)

(** ** Strings *)

Section StringFacts.

Local Open Scope string_scope.

Lemma append_assoc (a b c : string) : (a ++ b) ++ c = a ++ b ++ c.
Proof.
  induction a as [|x a IH]; [reflexivity|].
  change (String x ((a ++ b) ++ c) = String x (a ++ b ++ c)). now rewrite IH.
Qed.

Lemma prefix_app (a b : string) :
  String.prefix a b = true <-> exists post, b = a ++ post.
Proof.
  revert b. induction a as [|c a IH]; intros b; simpl.
  - split; [intros _; exists b; reflexivity | destruct b; reflexivity].
  - destruct b as [|d b].
    + split; [discriminate | intros [post H]; discriminate].
    + simpl. destruct (ascii_dec c d) as [->|Hne].
      * rewrite IH. split; intros [post H]; exists post.
        -- now rewrite H.
        -- now inversion H.
      * split; [discriminate|]. intros [post H]. inversion H; subst. congruence.
Qed.

(** [includes] is the substring relation. *)
Lemma includes_spec (hay needle : string) :
  includes hay needle = true <-> exists pre post, hay = pre ++ needle ++ post.
Proof.
  induction hay as [|c hay IH]; cbn [includes].
  - rewrite orb_false_r, prefix_app. split.
    + intros [post H]. exists "", post. exact H.
    + intros [pre [post H]]. destruct pre; [|discriminate].
      exists post. exact H.
  - rewrite orb_true_iff, prefix_app, IH. split.
    + intros [[post H]|[pre [post H]]].
      * exists "", post. exact H.
      * exists (String c pre), post. simpl. now rewrite H.
    + intros [pre [post H]]. destruct pre as [|d pre]; simpl in H.
      * left. exists post. exact H.
      * right. inversion H. exists pre, post. reflexivity.
Qed.

Lemma indexOf_ge (s : string) (c : ascii) : -1 <= indexOf s c.
Proof.
  induction s as [|a s IH]; simpl; [lia|].
  destruct (Ascii.eqb a c); [lia|]. destruct (indexOf s c =? -1)%Z; lia.
Qed.

Lemma includes_char_indexOf (s : string) (c : ascii) :
  includes s (String c "") = false <-> indexOf s c = -1.
Proof.
  induction s as [|a s IH]; simpl.
  - split; reflexivity.
  - destruct (ascii_dec c a) as [->|Hne].
    + rewrite Ascii.eqb_refl. destruct s; simpl; split; discriminate.
    + destruct (Ascii.eqb a c) eqn:E.
      { apply Ascii.eqb_eq in E. congruence. }
      simpl. rewrite IH. destruct (indexOf s c =? -1)%Z eqn:E'.
      * apply Z.eqb_eq in E'. tauto.
      * apply Z.eqb_neq in E'. pose proof (indexOf_ge s c). split; [tauto|].
        intros. lia.
Qed.

(** The first occurrence of [c]: [slice0] at [indexOf] is what precedes it. *)
Lemma indexOf_app (a b : string) (c : ascii) :
  indexOf a c = -1 ->
  indexOf (a ++ String c b) c = Z.of_nat (String.length a)
  /\ slice0 (a ++ String c b) (Z.of_nat (String.length a)) = a.
Proof.
  unfold slice0. rewrite Nat2Z.id.
  induction a as [|d a IH]; simpl.
  - intros _. rewrite Ascii.eqb_refl. split; [reflexivity|].
    now destruct b.
  - destruct (Ascii.eqb d c); [discriminate|].
    destruct (indexOf a c =? -1)%Z eqn:E.
    + apply Z.eqb_eq in E. intros _. destruct (IH E) as [H1 H2].
      rewrite H1, H2. split; [|reflexivity].
      destruct (Z.of_nat (String.length a) =? -1)%Z eqn:E2; [|lia].
      apply Z.eqb_eq in E2. lia.
    + intros H. pose proof (indexOf_ge a c). apply Z.eqb_neq in E. lia.
Qed.

Lemma falsy_false (s : string) : falsy s = false <-> s <> "".
Proof. destruct s; simpl; split; congruence. Qed.

Lemma falsy_true (s : string) : falsy s = true <-> s = "".
Proof. destruct s; simpl; split; congruence. Qed.

End StringFacts.

(** ** The nonce pattern *)

Section PatternFacts.

Local Open Scope string_scope.

(** A character no atom accepts does not occur in the matched text. *)
Lemma matchAtoms_avoids (c : ascii) (p : list atom) :
  forallb (fun a => negb (atomMatches a c)) p = true ->
  forall s m tail, matchAtoms p s = Some (m, tail) -> indexOf m c = -1.
Proof.
  induction p as [|a p IH]; simpl; intros Hp s m tail H.
  - inversion H. reflexivity.
  - apply andb_true_iff in Hp as [Ha Hp].
    destruct s as [|d s]; [discriminate|].
    destruct (atomMatches a d) eqn:Hd; [|discriminate].
    destruct (matchAtoms p s) as [[m' tail']|] eqn:Hm; [|discriminate].
    inversion H; subst. simpl.
    destruct (Ascii.eqb d c) eqn:E.
    + apply Ascii.eqb_eq in E. subst. rewrite Hd in Ha. discriminate.
    + rewrite (IH Hp _ _ _ Hm). reflexivity.
Qed.

Lemma matchAtoms_cons_nonempty (a : atom) (p : list atom) (s m tail : string) :
  matchAtoms (a :: p) s = Some (m, tail) -> falsy m = false.
Proof.
  simpl. destruct s as [|d s]; [discriminate|].
  destruct (atomMatches a d); [|discriminate].
  destruct (matchAtoms p s) as [[m' tail']|]; [|discriminate].
  intros H. inversion H. reflexivity.
Qed.

Lemma matchNonce_stamp (s stamp tail : string) :
  matchNonce s = Some (stamp, tail) ->
  falsy stamp = false /\ includes stamp "." = false.
Proof.
  unfold matchNonce. intros H.
  destruct (matchAtoms timestampAtoms s) as [[m t]|] eqn:Hm; [|discriminate].
  destruct (dotStar t); [|discriminate]. inversion H; subst. split.
  - exact (matchAtoms_cons_nonempty Digit (tl timestampAtoms) _ _ _ Hm).
  - apply includes_char_indexOf.
    apply (matchAtoms_avoids "." timestampAtoms eq_refl _ _ _ Hm).
Qed.

Lemma matchNonce_trim_nonempty (nonce : string) (x : string * string) :
  matchNonce (trim nonce) = Some x -> falsy nonce = false.
Proof. destruct nonce; [discriminate | reflexivity]. Qed.

(** No name inherited from [Object.prototype] has the shape of a nonce. *)
Lemma matchNonce_not_inherited (nonce : string) (x : string * string) :
  matchNonce (trim nonce) = Some x ->
  existsb (String.eqb nonce) objectPrototypeKeys = false.
Proof.
  intros H. destruct (existsb _ _) eqn:E; [|reflexivity].
  apply existsb_exists in E as [k [Hin Hk]].
  apply String.eqb_eq in Hk. subst k.
  unfold objectPrototypeKeys in Hin. simpl in Hin.
  repeat (destruct Hin as [<-|Hin]; [vm_compute in H; discriminate|]).
  contradiction.
Qed.

End PatternFacts.

(** ** The nonce store *)

Section StoreFacts.

Lemma sweep_fold_lookup (t : Z) (init m : gmap string Z) (k : string) :
  map_fold
    (fun (nonce : string) (date : Z) (obj : gmap string Z) =>
       if Z.abs (t - date) >? FIVE_MINUTES_IN_MS
       then delete nonce obj else obj) init m !! k
  = match m !! k with
    | Some d => if Z.abs (t - d) >? FIVE_MINUTES_IN_MS then None else init !! k
    | None => init !! k
    end.
Proof.
  revert k.
  apply (map_fold_weak_ind
           (fun (r m : gmap string Z) =>
              forall k, r !! k = match m !! k with
                                 | Some d =>
                                     if Z.abs (t - d) >? FIVE_MINUTES_IN_MS
                                     then None else init !! k
                                 | None => init !! k
                                 end)).
  - intros k. rewrite lookup_empty. reflexivity.
  - intros i x m' r Hi IH k. destruct (decide (i = k)) as [->|Hne].
    + rewrite lookup_insert_eq. specialize (IH k). rewrite Hi in IH.
      destruct (Z.abs (t - x) >? FIVE_MINUTES_IN_MS).
      * apply lookup_delete_eq.
      * exact IH.
    + rewrite lookup_insert_ne by exact Hne. rewrite <- IH.
      destruct (Z.abs (t - x) >? FIVE_MINUTES_IN_MS); [|reflexivity].
      apply lookup_delete_ne. exact Hne.
Qed.

(** The sweep keeps exactly the entries within the window. *)
Lemma sweptNonces_lookup (w : World) (k : string) (d : Z) :
  sweptNonces w !! k = Some d <->
  nonces w !! k = Some d /\ Z.abs (now w - d) <= FIVE_MINUTES_IN_MS.
Proof.
  unfold sweptNonces, removeOldNonces. simpl. rewrite sweep_fold_lookup.
  destruct (nonces w !! k) as [d'|] eqn:E.
  - destruct (Z.gtb_spec (Z.abs (now w - d')) FIVE_MINUTES_IN_MS).
    + split; [discriminate|]. intros [H1 H2]. inversion H1; subst. lia.
    + split.
      * intros H1. inversion H1; subst. split; [reflexivity | lia].
      * intros [H1 _]. exact H1.
  - split; [discriminate | intros [H _]; discriminate].
Qed.

Lemma sweptNonces_None (w : World) (k : string) :
  nonces w !! k = None -> sweptNonces w !! k = None.
Proof.
  intros H. destruct (sweptNonces w !! k) as [d|] eqn:E; [|reflexivity].
  apply sweptNonces_lookup in E as [E _]. congruence.
Qed.

Lemma sweptNonces_fresh (w : World) : freshAt (now w) (sweptNonces w).
Proof. intros k d H. apply sweptNonces_lookup in H. tauto. Qed.

Lemma sweptNonces_stamped (P : Platform) (w : World) :
  stampedBy P (nonces w) -> stampedBy P (sweptNonces w).
Proof. intros Hw k d H. apply sweptNonces_lookup in H as [H _]. eauto. Qed.

Lemma removeOldNonces_world (w : World) :
  removeOldNonces w = (Ok tt, mkWorld (sweptNonces w) (now w) (queries w)).
Proof. reflexivity. Qed.

End StoreFacts.

(** ** [checkNonce], stage by stage *)

Section CheckNonceFacts.

Variable P : Platform.

(** What [checkNonce] does once the nonce has been read and its timestamp
    parsed: the sweep, then the skew check, then the replay check against the
    swept store, then the insertion under the token as received. *)
Lemma checkNonce_checked (params : URLSearchParams) (w : World)
    (nonce stamp tail : string) (ts : Z) :
  isOpenId1 params = false ->
  SearchParams.get "openid.response_nonce" params = Some nonce ->
  matchNonce (trim nonce) = Some (stamp, tail) ->
  dateGetTime P stamp = Some ts ->
  checkNonce P params w =
    if Z.abs (now w - ts) >? FIVE_MINUTES_IN_MS
    then (Err NonceSkewTooLarge, mkWorld (sweptNonces w) (now w) (queries w))
    else if hasProperty nonce (sweptNonces w)
    then (Err NonceReplayed, mkWorld (sweptNonces w) (now w) (queries w))
    else (Ok tt, mkWorld (<[nonce := ts]> (sweptNonces w)) (now w) (queries w)).
Proof.
  intros Hv Hn Hm Hd. unfold checkNonce. rewrite Hv, Hn.
  rewrite (matchNonce_trim_nonempty _ _ Hm), Hm.
  destruct (matchNonce_stamp _ _ _ Hm) as [-> ->]. simpl. rewrite Hd.
  unfold mbind, M_bind. rewrite removeOldNonces_world.
  unfold dateNow, nonceKnown, storeNonce, mthrow, M_throw. simpl.
  destruct (Z.abs (now w - ts) >? FIVE_MINUTES_IN_MS); [reflexivity|].
  cbn [nonces]. destruct (hasProperty nonce (sweptNonces w)); reflexivity.
Qed.

(** [checkNonce] leaves the clock and the discovery log alone. *)
Lemma checkNonce_frame (params : URLSearchParams) (w : World) :
  now (snd (checkNonce P params w)) = now w
  /\ queries (snd (checkNonce P params w)) = queries w.
Proof.
  unfold checkNonce. destruct (isOpenId1 params); [split; reflexivity|].
  destruct (SearchParams.get "openid.response_nonce" params) as [nonce|];
    [|split; reflexivity].
  destruct (falsy nonce); [split; reflexivity|].
  destruct (matchNonce (trim nonce)) as [[stamp tail]|]; [|split; reflexivity].
  destruct (falsy stamp || includes stamp "."); [split; reflexivity|].
  destruct (dateGetTime P stamp) as [ts|]; [|split; reflexivity].
  unfold mbind, M_bind. rewrite removeOldNonces_world.
  unfold dateNow, nonceKnown, storeNonce, mthrow, M_throw. cbn [now nonces].
  destruct (Z.abs (now w - ts) >? FIVE_MINUTES_IN_MS); [split; reflexivity|].
  destruct (hasProperty nonce _); split; reflexivity.
Qed.

(** The ways [checkNonce] can end. *)
Lemma checkNonce_cases (params : URLSearchParams) (w : World) :
  (isOpenId1 params = true /\ checkNonce P params w = (Ok tt, w))
  \/ (isOpenId1 params = false
      /\ exists e, checkNonce P params w = (Err e, w)
                   /\ (e = MissingNonce \/ e = InvalidNonceFormat
                       \/ e = NonceTimestampUnparsable))
  \/ (isOpenId1 params = false
      /\ exists nonce stamp tail ts,
           SearchParams.get "openid.response_nonce" params = Some nonce
           /\ matchNonce (trim nonce) = Some (stamp, tail)
           /\ dateGetTime P stamp = Some ts).
Proof.
  unfold checkNonce. destruct (isOpenId1 params) eqn:Hv.
  { left. split; reflexivity. }
  right.
  destruct (SearchParams.get "openid.response_nonce" params) as [nonce|] eqn:Hn.
  2:{ left. split; [reflexivity|]. exists MissingNonce. tauto. }
  destruct (falsy nonce) eqn:Hf.
  { left. split; [reflexivity|]. exists MissingNonce. tauto. }
  destruct (matchNonce (trim nonce)) as [[stamp tail]|] eqn:Hm.
  2:{ left. split; [reflexivity|]. exists InvalidNonceFormat. tauto. }
  destruct (matchNonce_stamp _ _ _ Hm) as [-> ->]. simpl.
  destruct (dateGetTime P stamp) as [ts|] eqn:Hd.
  2:{ left. split; [reflexivity|]. exists NonceTimestampUnparsable. tauto. }
  right. split; [reflexivity|]. exists nonce, stamp, tail, ts. tauto.
Qed.

End CheckNonceFacts.

(** ** The validation pipeline *)

Section Pipeline.

Variable P : Platform.

(** The stages of [validateResponse] in the order they run; the first one
    that throws ends the call. *)
Lemma validateResponse_stages (discover : string -> discovery)
    (responseUrl returnUrl : string) (w : World) :
  validateResponse P discover responseUrl returnUrl w =
    match newURL P (trim responseUrl) with
    | None => (Err (InvalidURL (trim responseUrl)), w)
    | Some assertionUrl =>
        match checkReturnUrlsAreValid P assertionUrl returnUrl with
        | Err e => (Err e, w)
        | Ok _ =>
            match checkParams (Some (searchParams assertionUrl)) with
            | Err e => (Err e, w)
            | Ok _ =>
                match checkNonce P (searchParams assertionUrl) w with
                | (Err e, w') => (Err e, w')
                | (Ok _, w') =>
                    verifyDiscoveredInformation discover
                      (searchParams assertionUrl) w'
                end
            end
        end
    end.
Proof.
  unfold validateResponse. destruct (newURL P (trim responseUrl)); [|reflexivity].
  unfold mbind, M_bind, lift.
  destruct (checkReturnUrlsAreValid P u returnUrl); [|reflexivity].
  destruct (checkParams (Some (searchParams u))); reflexivity.
Qed.

(** [verifyDiscoveredInformation] never touches the nonce store or the
    clock; it records the one identifier it looks up. *)
Lemma verifyDiscoveredInformation_ok (discover : string -> discovery)
    (params : URLSearchParams) (w w' : World) (r : ProviderResponse) :
  verifyDiscoveredInformation discover params w = (Ok r, w') ->
  exists claimed,
    SearchParams.get "openid.claimed_id" params = Some claimed
    /\ r = mkProviderResponse (Some true) (Some claimed)
    /\ w' = mkWorld (nonces w) (now w)
              (queries w ++ [getCanonicalClaimedIdentifier claimed])
    /\ exists providers,
         discover (getCanonicalClaimedIdentifier claimed) = Resolved providers
         /\ noProviders providers = false.
Proof.
  unfold verifyDiscoveredInformation.
  destruct (SearchParams.get "openid.claimed_id" params) as [claimed|];
    [|discriminate].
  destruct (falsy claimed); [discriminate|].
  unfold mbind, M_bind, callDiscover.
  destruct (discover (getCanonicalClaimedIdentifier claimed))
    as [|providers] eqn:Hd; [discriminate|].
  destruct (noProviders providers) eqn:Hp; [discriminate|].
  destruct (missing _ || missing _); [discriminate|].
  intros H. inversion H; subst. exists claimed.
  split; [reflexivity|]. split; [reflexivity|]. split; [reflexivity|].
  exists providers. split; [exact Hd | exact Hp].
Qed.

Lemma verifyDiscoveredInformation_nonces (discover : string -> discovery)
    (params : URLSearchParams) (w : World) :
  nonces (snd (verifyDiscoveredInformation discover params w)) = nonces w.
Proof.
  unfold verifyDiscoveredInformation.
  destruct (SearchParams.get "openid.claimed_id" params) as [claimed|];
    [|reflexivity].
  destruct (falsy claimed); [reflexivity|].
  unfold mbind, M_bind, callDiscover.
  destruct (discover (getCanonicalClaimedIdentifier claimed)) as [|providers];
    [reflexivity|].
  destruct (noProviders providers); [reflexivity|].
  destruct (missing _ || missing _); reflexivity.
Qed.

End Pipeline.

(** ** The properties of the specification *)

Section Claims.

Variable P : Platform.

(** C8, as the code has it: with the empty string as [returnUrl],
    [validateResponse] fails with [EmptyClientReturnUrl] and leaves the client
    as it was, for every response URL the [URL] constructor accepts (the
    response URL is parsed before the return URL is looked at). *)
Theorem validateResponse_empty_returnUrl (discover : string -> discovery)
    (responseUrl : string) (w : World) (assertionUrl : URL) :
  newURL P (trim responseUrl) = Some assertionUrl ->
  validateResponse P discover responseUrl "" w = (Err EmptyClientReturnUrl, w).
Proof.
  intros Hu. rewrite validateResponse_stages, Hu. reflexivity.
Qed.

(** C6: a response whose [openid.mode] is [cancel] and whose return URL
    passes the binding check fails with [AuthenticationCancelled], and the
    client (its nonce store in particular) is exactly as before the call. *)
Theorem validateResponse_cancel (discover : string -> discovery)
    (responseUrl returnUrl : string) (w : World) (assertionUrl : URL) :
  newURL P (trim responseUrl) = Some assertionUrl ->
  checkReturnUrlsAreValid P assertionUrl returnUrl = Ok tt ->
  SearchParams.get "openid.mode" (searchParams assertionUrl) = Some "cancel"%string ->
  validateResponse P discover responseUrl returnUrl w
  = (Err AuthenticationCancelled, w)
  /\ nonces (snd (validateResponse P discover responseUrl returnUrl w))
     = nonces w.
Proof.
  intros Hu Hr Hm. rewrite validateResponse_stages, Hu, Hr.
  unfold checkParams. rewrite Hm. split; reflexivity.
Qed.

(** C7: when validation succeeds on a response whose [openid.claimed_id] is
    [a#b], with no [#] in [a], the one discovery made by the call is for [a],
    and the response returned is authenticated with the claimed identifier
    [a#b], fragment included. *)
Theorem validateResponse_claimed_fragment (discover : string -> discovery)
    (responseUrl returnUrl : string) (w w' : World) (r : ProviderResponse)
    (assertionUrl : URL) (a b : string) :
  newURL P (trim responseUrl) = Some assertionUrl ->
  SearchParams.get "openid.claimed_id" (searchParams assertionUrl)
  = Some (a ++ String "#" b)%string ->
  indexOf a "#" = -1 ->
  validateResponse P discover responseUrl returnUrl w = (Ok r, w') ->
  getCanonicalClaimedIdentifier (a ++ String "#" b) = a
  /\ queries w' = queries w ++ [a]
  /\ (exists providers,
        discover a = Resolved providers /\ noProviders providers = false)
  /\ r = mkProviderResponse (Some true) (Some (a ++ String "#" b)%string).
Proof.
  intros Hu Hc Ha. rewrite validateResponse_stages, Hu.
  assert (Hcanon : getCanonicalClaimedIdentifier (a ++ String "#" b) = a).
  { unfold getCanonicalClaimedIdentifier.
    destruct (indexOf_app a b "#" Ha) as [-> Hs].
    destruct (Z.of_nat (String.length a) =? -1) eqn:E.
    - apply Z.eqb_eq in E. lia.
    - simpl. rewrite Z.max_r by lia. exact Hs. }
  destruct (checkReturnUrlsAreValid P assertionUrl returnUrl); [|discriminate].
  destruct (checkParams (Some (searchParams assertionUrl))); [|discriminate].
  pose proof (checkNonce_frame P (searchParams assertionUrl) w) as [_ Hq].
  destruct (checkNonce P (searchParams assertionUrl) w) as [[[]|e] w1];
    [|discriminate].
  intros H. apply verifyDiscoveredInformation_ok in H
    as [claimed [Hc' [Hr [Hw [providers [Hd Hp]]]]]].
  rewrite Hc in Hc'. inversion Hc'; subst claimed. rewrite Hcanon in *.
  split; [reflexivity|]. subst w'. simpl in *. rewrite Hq.
  split; [reflexivity|]. split; [exists providers; auto | exact Hr].
Qed.

End Claims.

Section NonceClaims.

Variable P : Platform.

Lemma hasProperty_lookup (nonce : string) (store : gmap string Z) (d : Z) :
  store !! nonce = Some d -> hasProperty nonce store = true.
Proof. unfold hasProperty. intros ->. reflexivity. Qed.

Lemma hasProperty_fresh (nonce : string) (store : gmap string Z)
    (x : string * string) :
  matchNonce (trim nonce) = Some x ->
  store !! nonce = None -> hasProperty nonce store = false.
Proof.
  unfold hasProperty. intros Hm ->. exact (matchNonce_not_inherited _ _ Hm).
Qed.

(** For a token with the shape of a nonce, [in] finds own entries only. *)
Lemma hasProperty_own (nonce : string) (store : gmap string Z)
    (x : string * string) :
  matchNonce (trim nonce) = Some x ->
  hasProperty nonce store = true <-> exists d, store !! nonce = Some d.
Proof.
  intros Hm. destruct (store !! nonce) as [d|] eqn:E.
  - rewrite (hasProperty_lookup _ _ _ E). split; eauto.
  - rewrite (hasProperty_fresh _ _ _ Hm E). split; [discriminate|].
    intros [d Hd]. discriminate.
Qed.

(** C4: for a response whose nonce is looked at (it is not skipped as
    OpenID 1.x) and whose nonce carries a timestamp [ts] that parses,
    [checkNonce] fails with [NonceSkewTooLarge] exactly when [|now - ts|]
    exceeds 300000 ms, earlier or later; at a distance of exactly 300000 ms
    the skew check passes, and a nonce not yet in the store is accepted and
    stored under [ts]. *)
Theorem checkNonce_skew_boundary (params : URLSearchParams) (w : World)
    (nonce stamp tail : string) (ts : Z) :
  isOpenId1 params = false ->
  SearchParams.get "openid.response_nonce" params = Some nonce ->
  matchNonce (trim nonce) = Some (stamp, tail) ->
  dateGetTime P stamp = Some ts ->
  (fst (checkNonce P params w) = Err NonceSkewTooLarge
   <-> Z.abs (now w - ts) > 300000)
  /\ (Z.abs (now w - ts) = 300000 ->
      nonces w !! nonce = None ->
      fst (checkNonce P params w) = Ok tt
      /\ nonces (snd (checkNonce P params w)) !! nonce = Some ts).
Proof.
  intros Hv Hn Hm Hd. rewrite (checkNonce_checked P _ w _ _ _ _ Hv Hn Hm Hd).
  unfold FIVE_MINUTES_IN_MS.
  destruct (Z.gtb_spec (Z.abs (now w - ts)) 300000) as [Hgt|Hle].
  - split; [split; [lia | reflexivity] | lia].
  - split.
    + split; [|lia]. destruct (hasProperty nonce (sweptNonces w)); discriminate.
    + intros _ Hfresh.
      rewrite (hasProperty_fresh _ _ _ Hm (sweptNonces_None _ _ Hfresh)).
      simpl. split; [reflexivity | apply lookup_insert_eq].
Qed.

Lemma checkNonce_stamped (params : URLSearchParams) (w : World) :
  stampedBy P (nonces w) ->
  stampedBy P (nonces (snd (checkNonce P params w))).
Proof.
  intros Hw.
  destruct (checkNonce_cases P params w)
    as [[_ ->]|[[_ [e [-> _]]]|[Hv [nonce [stamp [tail [ts [Hn [Hm Hd]]]]]]]]];
    try exact Hw.
  rewrite (checkNonce_checked P _ w _ _ _ _ Hv Hn Hm Hd).
  pose proof (sweptNonces_stamped P w Hw) as Hs.
  destruct (Z.abs (now w - ts) >? FIVE_MINUTES_IN_MS); [exact Hs|].
  destruct (hasProperty nonce (sweptNonces w)); [exact Hs|].
  simpl. intros k d. destruct (decide (nonce = k)) as [<-|Hne].
  - rewrite lookup_insert_eq. intros H. inversion H; subst.
    unfold embeddedTimestamp. rewrite Hm. exact Hd.
  - rewrite lookup_insert_ne by exact Hne. apply Hs.
Qed.

Lemma validateResponse_nonces (discover : string -> discovery)
    (responseUrl returnUrl : string) (w : World) :
  nonces (snd (validateResponse P discover responseUrl returnUrl w)) = nonces w
  \/ exists params,
       nonces (snd (validateResponse P discover responseUrl returnUrl w))
       = nonces (snd (checkNonce P params w)).
Proof.
  rewrite validateResponse_stages.
  destruct (newURL P (trim responseUrl)) as [u|]; [|left; reflexivity].
  destruct (checkReturnUrlsAreValid P u returnUrl); [|left; reflexivity].
  destruct (checkParams (Some (searchParams u))); [|left; reflexivity].
  right. exists (searchParams u).
  destruct (checkNonce P (searchParams u) w) as [[[]|e] w1]; [|reflexivity].
  apply verifyDiscoveredInformation_nonces.
Qed.

Lemma authenticate_nonces (discover : string -> discovery)
    (identifier returnUrl : string) (w : World) :
  nonces (snd (authenticate P discover identifier returnUrl w)) = nonces w.
Proof.
  unfold authenticate, mbind, M_bind, callDiscover.
  destruct (discover identifier) as [|providers]; [reflexivity|].
  destruct (noProviders providers); reflexivity.
Qed.

Lemma step_stamped (w : World) (c : call) :
  stampedBy P (nonces w) -> stampedBy P (nonces (step P w c)).
Proof.
  intros Hw. destruct c as [d i r|d u r|t]; simpl.
  - rewrite authenticate_nonces. exact Hw.
  - destruct (validateResponse_nonces d u r w) as [->|[params ->]];
      [exact Hw | apply checkNonce_stamped, Hw].
  - exact Hw.
Qed.

Lemma run_stamped (t0 : Z) (calls : list call) :
  stampedBy P (nonces (run P t0 calls)).
Proof.
  unfold run. induction calls as [|c calls IH] using rev_ind.
  - intros k d H. simpl in H. rewrite lookup_empty in H. discriminate.
  - rewrite fold_left_app. simpl. apply step_stamped, IH.
Qed.

(** C2: in every state the client reaches, each entry of the store maps a
    token to the timestamp embedded in it; the sweep keeps exactly the
    entries within 300000 ms of now, earlier or later; and in [checkNonce]
    the skew check, the replay check and the insertion all come after the
    sweep, so the replay check looks the token up in a store whose entries
    are all within the window. *)
Theorem nonce_store_invariant (t0 : Z) (calls : list call)
    (params : URLSearchParams) :
  let w := run P t0 calls in
  let out := checkNonce P params w in
  stampedBy P (nonces w)
  /\ stampedBy P (nonces (snd out))
  /\ (forall k d, sweptNonces w !! k = Some d
                  <-> nonces w !! k = Some d /\ Z.abs (now w - d) <= 300000)
  /\ freshAt (now w) (sweptNonces w)
  /\ (forall nonce stamp tail ts,
        isOpenId1 params = false ->
        SearchParams.get "openid.response_nonce" params = Some nonce ->
        matchNonce (trim nonce) = Some (stamp, tail) ->
        dateGetTime P stamp = Some ts ->
        (Z.abs (now w - ts) > 300000
         /\ fst out = Err NonceSkewTooLarge
         /\ nonces (snd out) = sweptNonces w)
        \/ (Z.abs (now w - ts) <= 300000
            /\ (exists d, sweptNonces w !! nonce = Some d)
            /\ fst out = Err NonceReplayed
            /\ nonces (snd out) = sweptNonces w)
        \/ (Z.abs (now w - ts) <= 300000
            /\ sweptNonces w !! nonce = None
            /\ fst out = Ok tt
            /\ nonces (snd out) = <[nonce := ts]> (sweptNonces w)
            /\ freshAt (now w) (nonces (snd out)))).
Proof.
  intros w out. split; [apply run_stamped|].
  split; [apply checkNonce_stamped, run_stamped|].
  split; [intros k d; apply sweptNonces_lookup|].
  split; [apply sweptNonces_fresh|].
  intros nonce stamp tail ts Hv Hn Hm Hd. subst out.
  rewrite (checkNonce_checked P _ w _ _ _ _ Hv Hn Hm Hd).
  unfold FIVE_MINUTES_IN_MS.
  destruct (Z.gtb_spec (Z.abs (now w - ts)) 300000) as [Hgt|Hle].
  - left. split; [lia|]. split; reflexivity.
  - right. destruct (hasProperty nonce (sweptNonces w)) eqn:Hk.
    + left. split; [exact Hle|].
      split; [apply (hasProperty_own _ _ _ Hm), Hk|]. split; reflexivity.
    + right. split; [exact Hle|].
      assert (Hnone : sweptNonces w !! nonce = None).
      { destruct (sweptNonces w !! nonce) as [d|] eqn:E; [|reflexivity].
        rewrite (hasProperty_lookup _ _ _ E) in Hk. discriminate. }
      split; [exact Hnone|]. split; [reflexivity|]. split; [reflexivity|].
      simpl. intros k d. destruct (decide (nonce = k)) as [<-|Hne].
      * rewrite lookup_insert_eq. intros H. inversion H; subst.
        unfold FIVE_MINUTES_IN_MS. exact Hle.
      * rewrite lookup_insert_ne by exact Hne. apply sweptNonces_fresh.
Qed.

End NonceClaims.

Section ReplayClaims.

Variable P : Platform.

(** A successful validation, taken apart: every stage passed, and the world
    returned is the one [checkNonce] left with the discovery recorded. *)
Lemma validateResponse_ok (discover : string -> discovery)
    (responseUrl returnUrl : string) (w w' : World) (r : ProviderResponse) :
  validateResponse P discover responseUrl returnUrl w = (Ok r, w') ->
  exists assertionUrl wn,
    newURL P (trim responseUrl) = Some assertionUrl
    /\ checkReturnUrlsAreValid P assertionUrl returnUrl = Ok tt
    /\ checkParams (Some (searchParams assertionUrl)) = Ok tt
    /\ checkNonce P (searchParams assertionUrl) w = (Ok tt, wn)
    /\ verifyDiscoveredInformation discover (searchParams assertionUrl) wn
       = (Ok r, w').
Proof.
  rewrite validateResponse_stages.
  destruct (newURL P (trim responseUrl)) as [u|]; [|discriminate].
  destruct (checkReturnUrlsAreValid P u returnUrl) as [[]|] eqn:Hr;
    [|discriminate].
  destruct (checkParams (Some (searchParams u))) as [[]|] eqn:Hp;
    [|discriminate].
  destruct (checkNonce P (searchParams u) w) as [[[]|e] wn] eqn:Hn;
    [|discriminate].
  intros H. exists u, wn. repeat (split; [assumption || reflexivity|]).
  exact H.
Qed.

(** An accepted nonce, taken apart. *)
Lemma checkNonce_ok (params : URLSearchParams) (w wn : World) :
  isOpenId1 params = false ->
  checkNonce P params w = (Ok tt, wn) ->
  exists nonce stamp tail ts,
    SearchParams.get "openid.response_nonce" params = Some nonce
    /\ matchNonce (trim nonce) = Some (stamp, tail)
    /\ dateGetTime P stamp = Some ts
    /\ Z.abs (now w - ts) <= FIVE_MINUTES_IN_MS
    /\ sweptNonces w !! nonce = None
    /\ wn = mkWorld (<[nonce := ts]> (sweptNonces w)) (now w) (queries w).
Proof.
  intros Hv H.
  destruct (checkNonce_cases P params w)
    as [[Hv' _]|[[_ [e [He _]]]|[_ [nonce [stamp [tail [ts [Hn [Hm Hd]]]]]]]]].
  - congruence.
  - congruence.
  - exists nonce, stamp, tail, ts.
    rewrite (checkNonce_checked P _ w _ _ _ _ Hv Hn Hm Hd) in H.
    destruct (Z.gtb_spec (Z.abs (now w - ts)) FIVE_MINUTES_IN_MS);
      [discriminate|].
    destruct (hasProperty nonce (sweptNonces w)) eqn:Hk; [discriminate|].
    inversion H. repeat (split; [assumption || reflexivity|]).
    split; [|reflexivity].
    destruct (sweptNonces w !! nonce) as [d|] eqn:E; [|reflexivity].
    rewrite (hasProperty_lookup _ _ _ E) in Hk. discriminate.
Qed.

(** C1, as the code has it: after a successful validation of a response in
    2.0 mode (the nonce check is not skipped), the nonce sits in the store
    under its timestamp [ts], and validating the same response URL again, at
    any instant [t2] and whatever discovery answers, fails: with
    [NonceReplayed] while [ts] is within 300000 ms of [t2], and with
    [NonceSkewTooLarge] once it is not (the sweep has then dropped the
    stored nonce). *)
Theorem validateResponse_second_call_fails (d1 d2 : string -> discovery)
    (responseUrl returnUrl : string) (w w1 : World) (r : ProviderResponse)
    (assertionUrl : URL) (t2 : Z) :
  newURL P (trim responseUrl) = Some assertionUrl ->
  isOpenId1 (searchParams assertionUrl) = false ->
  validateResponse P d1 responseUrl returnUrl w = (Ok r, w1) ->
  exists nonce ts,
    SearchParams.get "openid.response_nonce" (searchParams assertionUrl)
    = Some nonce
    /\ embeddedTimestamp P nonce = Some ts
    /\ nonces w1 !! nonce = Some ts
    /\ (Z.abs (t2 - ts) <= 300000 ->
        fst (validateResponse P d2 responseUrl returnUrl (at_time t2 w1))
        = Err NonceReplayed)
    /\ (Z.abs (t2 - ts) > 300000 ->
        fst (validateResponse P d2 responseUrl returnUrl (at_time t2 w1))
        = Err NonceSkewTooLarge).
Proof.
  intros Hu Hv H.
  apply validateResponse_ok in H as [u [wn [Hu' [Hr [Hp [Hn Hd]]]]]].
  rewrite Hu in Hu'. inversion Hu'; subst u. clear Hu'.
  apply (checkNonce_ok _ _ _ Hv) in Hn
    as [nonce [stamp [tail [ts [Hg [Hm [Hts [Hle [Hnone Hwn]]]]]]]]].
  pose proof (verifyDiscoveredInformation_nonces d1 (searchParams assertionUrl) wn)
    as Hsame.
  rewrite Hd in Hsame. simpl in Hsame.
  assert (Hin : nonces w1 !! nonce = Some ts).
  { rewrite Hsame, Hwn. simpl. apply lookup_insert_eq. }
  exists nonce, ts. split; [exact Hg|].
  split; [unfold embeddedTimestamp; rewrite Hm; exact Hts|].
  split; [exact Hin|].
  rewrite validateResponse_stages, Hu, Hr, Hp.
  rewrite (checkNonce_checked P _ (at_time t2 w1) _ _ _ _ Hv Hg Hm Hts).
  cbn [at_time now]. unfold FIVE_MINUTES_IN_MS.
  destruct (Z.gtb_spec (Z.abs (t2 - ts)) 300000) as [Hgt|Hle2].
  - split; [lia | reflexivity].
  - split; [|lia]. intros _.
    assert (Hk : sweptNonces (at_time t2 w1) !! nonce = Some ts).
    { apply sweptNonces_lookup. split; [exact Hin | exact Hle2]. }
    rewrite (hasProperty_lookup _ _ _ Hk). reflexivity.
Qed.

End ReplayClaims.

Section ReturnUrlClaims.

Variable P : Platform.

Local Open Scope string_scope.

(** The first piece of a split is a prefix of the string. *)
Lemma splitAll_head (c : ascii) (s : string) :
  exists first others post, splitAll c s = first :: others /\ s = first ++ post.
Proof.
  induction s as [|a s IH]; simpl.
  - exists "", [], "". split; reflexivity.
  - destruct (Ascii.eqb a c).
    + exists "", (splitAll c s), (String a s). split; reflexivity.
    + destruct IH as [first [others [post [-> Hs]]]].
      exists (String a first), others, post. split; [reflexivity|].
      subst s. reflexivity.
Qed.

(** Every piece of a split is a substring of the string. *)
Lemma splitAll_substring (c : ascii) (s piece : string) :
  In piece (splitAll c s) -> exists pre post, s = pre ++ piece ++ post.
Proof.
  revert piece. induction s as [|a s IH]; simpl; intros piece H.
  - destruct H as [<-|[]]. exists "", "". reflexivity.
  - destruct (Ascii.eqb a c).
    + destruct H as [<-|H].
      * exists "", (String a s). reflexivity.
      * destruct (IH _ H) as [pre [post ->]].
        exists (String a pre), post. reflexivity.
    + destruct (splitAll_head c s) as [first [others [post [Hsplit Hs]]]].
      rewrite Hsplit in H, IH. destruct H as [<-|H].
      * exists "", post. subst s. reflexivity.
      * destruct (IH piece (or_intror H)) as [pre [post' ->]].
        exists (String a pre), post'. reflexivity.
Qed.

Lemma queryParameters_substring (search piece : string) :
  In piece (queryParameters search) ->
  exists pre post, search = pre ++ piece ++ post.
Proof.
  unfold queryParameters. intros H. apply filter_In in H as [H _].
  assert (Hq : forall q, In piece (splitAll "&" q) ->
                         search = q \/ search = String "?" q ->
                         exists pre post, search = pre ++ piece ++ post).
  { intros q Hin Hs. destruct (splitAll_substring _ _ _ Hin) as [pre [post ->]].
    destruct Hs as [->| ->].
    - exists pre, post. reflexivity.
    - exists (String "?" pre), post. reflexivity. }
  destruct search as [|a search]; [apply (Hq _ H); auto|].
  destruct (ascii_dec a "?") as [->|Hne].
  - apply (Hq _ H). auto.
  - apply (Hq (String a search)); [|auto].
    destruct a as [[] [] [] [] [] [] [] []]; try exact H. congruence.
Qed.

(** What the code requires is at least what the specification words ask:
    when the whole query string of the return URL occurs in the one of the
    response, so does each of its parameters. *)
Lemma includes_everyParameterAppears (returnSearch responseSearch : string) :
  includes responseSearch returnSearch = true ->
  everyParameterAppears returnSearch responseSearch = true.
Proof.
  intros H. apply includes_spec in H as [pre [post ->]].
  unfold everyParameterAppears. apply forallb_forall. intros piece Hin.
  destruct (queryParameters_substring _ _ Hin) as [pre' [post' ->]].
  apply includes_spec. exists (pre ++ pre'), (post' ++ post).
  now rewrite !append_assoc.
Qed.

(** C5, as the code has it: once scheme, host and path agree, the binding
    check fails with [QueryParamMismatch] exactly when both query strings are
    non-empty and the whole query string of [returnUrl], with its leading
    question mark, does not occur as one contiguous substring of the query
    string of the response URL; otherwise the check passes. Whenever it
    passes on a response with a query string, each parameter of [returnUrl]
    occurs verbatim in it. *)
Theorem checkReturnUrlsAreValid_query (assertionUrl : URL)
    (returnUrl returnTo : string) (parsedReturnTo parsedClient : URL) :
  returnUrl <> "" ->
  SearchParams.get "openid.return_to" (searchParams assertionUrl) = Some returnTo ->
  returnTo <> "" ->
  newURL P returnTo = Some parsedReturnTo ->
  newURL P returnUrl = Some parsedClient ->
  protocol parsedClient = protocol parsedReturnTo ->
  host parsedClient = host parsedReturnTo ->
  pathname parsedClient = pathname parsedReturnTo ->
  (checkReturnUrlsAreValid P assertionUrl returnUrl = Err QueryParamMismatch
   <-> search assertionUrl <> "" /\ search parsedClient <> ""
       /\ ~ exists pre post,
             search assertionUrl = pre ++ search parsedClient ++ post)
  /\ (checkReturnUrlsAreValid P assertionUrl returnUrl = Ok tt
      <-> search assertionUrl = "" \/ search parsedClient = ""
          \/ exists pre post,
               search assertionUrl = pre ++ search parsedClient ++ post)
  /\ (checkReturnUrlsAreValid P assertionUrl returnUrl = Ok tt ->
      search assertionUrl <> "" ->
      everyParameterAppears (search parsedClient) (search assertionUrl) = true).
Proof.
  intros Hr Hg Hrt Hpr Hpc Hproto Hhost Hpath.
  unfold checkReturnUrlsAreValid, parseURL.
  apply falsy_false in Hr. apply falsy_false in Hrt.
  rewrite Hr, Hg, Hrt, Hpr, Hpc, Hproto, Hhost, Hpath.
  rewrite !String.eqb_refl. cbn [negb orb].
  destruct (falsy (search assertionUrl)) eqn:Ha; cbn [negb andb].
  { apply falsy_true in Ha. split; [|split].
    - split; [discriminate | tauto].
    - split; [auto | reflexivity].
    - tauto. }
  apply falsy_false in Ha.
  destruct (falsy (search parsedClient)) eqn:Hc; cbn [negb andb].
  { apply falsy_true in Hc. split; [|split].
    - split; [discriminate | tauto].
    - split; [auto | reflexivity].
    - intros _ _. rewrite Hc. reflexivity. }
  apply falsy_false in Hc.
  destruct (includes (search assertionUrl) (search parsedClient)) eqn:Hi;
    cbn [negb].
  - pose proof (proj1 (includes_spec _ _) Hi) as Hsub. split; [|split].
    + split; [discriminate | tauto].
    + split; [auto | reflexivity].
    + intros _ _. apply includes_everyParameterAppears, Hi.
  - assert (Hsub : ~ exists pre post,
                       search assertionUrl = pre ++ search parsedClient ++ post).
    { intros H. apply includes_spec in H. congruence. }
    split; [|split].
    + split; [auto | reflexivity].
    + split; [discriminate | tauto].
    + discriminate.
Qed.

End ReturnUrlClaims.

Section AuthenticateClaims.

Variable P : Platform.

Local Open Scope string_scope.

Lemma buildUrl_request (theUrl returnUrl : string) (parsedUrl : URL) :
  newURL P theUrl = Some parsedUrl ->
  buildUrl P theUrl (authenticationParams returnUrl)
  = Ok (urlToString P (requestUrl P parsedUrl returnUrl)).
Proof. unfold buildUrl. intros ->. reflexivity. Qed.

(** A provider without an endpoint ends the selection, whatever follows. *)
Lemma chooseProvider_missing_endpoint (provider : Provider)
    (rest : list Provider) (returnUrl : string) :
  missing (endpoint provider) = true ->
  chooseProvider P (provider :: rest) returnUrl = Err MissingEndpoint.
Proof.
  intros H. simpl. unfold requestAuthentication. rewrite H. reflexivity.
Qed.

(** When the first provider discovery returns has an endpoint the [URL]
    constructor accepts, [authenticate] returns the serialisation of that
    endpoint with its query replaced: the parameters are exactly
    [openid.mode=checkid_setup], [openid.ns] the 2.0 namespace,
    [openid.claimed_id] and [openid.identity] the identifier_select URL and
    [openid.return_to] the return URL, in this order, and nothing of the
    endpoint's own query is left. *)
Lemma authenticate_first_usable (discover : string -> discovery)
    (identifier returnUrl : string) (w : World) (provider : Provider)
    (rest : list Provider) (theUrl : string) (parsedUrl : URL) :
  discover identifier = Resolved (Some (provider :: rest)) ->
  endpoint provider = Some theUrl ->
  theUrl <> "" ->
  newURL P theUrl = Some parsedUrl ->
  urlToString P (requestUrl P parsedUrl returnUrl) <> "" ->
  fst (authenticate P discover identifier returnUrl w)
  = Ok (urlToString P (requestUrl P parsedUrl returnUrl))
  /\ searchParams (requestUrl P parsedUrl returnUrl)
     = [("openid.mode", "checkid_setup");
        ("openid.ns", "http://specs.openid.net/auth/2.0");
        ("openid.claimed_id",
         "http://specs.openid.net/auth/2.0/identifier_select");
        ("openid.identity",
         "http://specs.openid.net/auth/2.0/identifier_select");
        ("openid.return_to", returnUrl)]
  /\ SearchParams.get "openid.mode" (searchParams (requestUrl P parsedUrl returnUrl))
     = Some "checkid_setup"
  /\ SearchParams.get "openid.return_to"
       (searchParams (requestUrl P parsedUrl returnUrl))
     = Some returnUrl
  /\ protocol (requestUrl P parsedUrl returnUrl) = protocol parsedUrl
  /\ host (requestUrl P parsedUrl returnUrl) = host parsedUrl
  /\ pathname (requestUrl P parsedUrl returnUrl) = pathname parsedUrl.
Proof.
  intros Hd He Hne Hu Hs. split; [|repeat split].
  unfold authenticate, mbind, M_bind, callDiscover. rewrite Hd.
  cbn [noProviders default lift fst chooseProvider].
  change (id (provider :: rest)) with (provider :: rest).
  cbn [chooseProvider]. unfold requestAuthentication. rewrite He.
  cbn [missing]. apply falsy_false in Hne. rewrite Hne.
  rewrite (buildUrl_request _ _ _ Hu). unfold mbind, result_bind.
  apply falsy_false in Hs. rewrite Hs. reflexivity.
Qed.

(** When serialised URLs are never empty, the selection of a non-empty
    provider list ends at its first provider: the [NoUsableProviders] throw
    after the loop is out of reach. *)
Lemma chooseProvider_first_decides (providers : list Provider)
    (returnUrl : string) :
  (forall u, urlToString P u <> "") ->
  providers <> [] ->
  chooseProvider P providers returnUrl
  = requestAuthentication P (hd (mkProvider None None) providers) returnUrl
  /\ chooseProvider P providers returnUrl <> Err NoUsableProviders.
Proof.
  intros Hs Hne. destruct providers as [|provider rest]; [congruence|].
  cbn [chooseProvider hd]. unfold requestAuthentication.
  destruct (missing (endpoint provider)); [split; [reflexivity|discriminate]|].
  destruct (endpoint provider) as [theUrl|];
    [|split; [reflexivity|discriminate]].
  unfold buildUrl. destruct (newURL P theUrl) as [parsedUrl|];
    [|split; [reflexivity|discriminate]].
  unfold mbind, result_bind, mret, result_ret.
  match goal with |- context [falsy ?u] =>
    destruct (falsy u) eqn:E; [apply falsy_true in E; apply Hs in E; destruct E|]
  end.
  split; [reflexivity|discriminate].
Qed.

End AuthenticateClaims.

(** C3, on the code: discovery answers with a provider without an endpoint
    followed by the Steam provider. [authenticate] fails with
    [MissingEndpoint] on the first and never reaches the second, although the
    second alone yields a redirect URL; and no answer of discovery makes
    [authenticate] fail with [NoUsableProviders]. *)
Theorem authenticate_stops_at_missing_endpoint :
  (forall (P : Platform) (identifier returnUrl : string) (w : World),
      authenticate P
        (Scenario.answer [mkProvider None None; Scenario.steamProvider])
        identifier returnUrl w
      = (Err MissingEndpoint,
         mkWorld (nonces w) (now w) (queries w ++ [identifier])))
  /\ fst (authenticate Model.platform
            (Scenario.answer [Scenario.steamProvider])
            "https://steamcommunity.com/openid" Scenario.returnUrl
            Scenario.client)
     = Ok Scenario.steamRedirect
  /\ (forall (P : Platform) (discover : string -> discovery)
             (identifier returnUrl : string) (w : World),
         (forall u, urlToString P u <> ""%string) ->
         fst (authenticate P discover identifier returnUrl w)
         <> Err NoUsableProviders).
Proof.
  split; [|split; [vm_compute; reflexivity|]].
  - intros P identifier returnUrl w. reflexivity.
  - intros P discover identifier returnUrl w Hs.
    unfold authenticate, mbind, M_bind, callDiscover.
    destruct (discover identifier) as [|providers]; [discriminate|].
    destruct (noProviders providers) eqn:Hn; [discriminate|].
    cbn [lift fst].
    apply (chooseProvider_first_decides P _ returnUrl Hs).
    destruct providers as [[|provider rest]|]; try discriminate.
Qed.

(** C9, on the code: the redirect URL is built as claimed, from the endpoint
    with its own query dropped and with exactly the five request parameters,
    whenever the first provider of the answer is usable; but when a provider
    without an endpoint precedes the one that has it, [authenticate] fails
    with [MissingEndpoint] and returns no URL (the selection stops at the
    first provider, as in C3). *)
Theorem authenticate_redirect_url :
  (forall (P : Platform) (discover : string -> discovery)
          (identifier returnUrl : string) (w : World) (provider : Provider)
          (rest : list Provider) (theUrl : string) (parsedUrl : URL),
      discover identifier = Resolved (Some (provider :: rest)) ->
      endpoint provider = Some theUrl ->
      theUrl <> ""%string ->
      newURL P theUrl = Some parsedUrl ->
      urlToString P (requestUrl P parsedUrl returnUrl) <> ""%string ->
      fst (authenticate P discover identifier returnUrl w)
      = Ok (urlToString P (requestUrl P parsedUrl returnUrl))
      /\ searchParams (requestUrl P parsedUrl returnUrl)
         = authenticationParams returnUrl
      /\ SearchParams.get "openid.mode" (authenticationParams returnUrl)
         = Some "checkid_setup"%string
      /\ SearchParams.get "openid.return_to" (authenticationParams returnUrl)
         = Some returnUrl
      /\ SearchParams.get "openid.ns" (authenticationParams returnUrl)
         = Some "http://specs.openid.net/auth/2.0"%string
      /\ SearchParams.get "openid.claimed_id" (authenticationParams returnUrl)
         = Some "http://specs.openid.net/auth/2.0/identifier_select"%string
      /\ SearchParams.get "openid.identity" (authenticationParams returnUrl)
         = Some "http://specs.openid.net/auth/2.0/identifier_select"%string)
  /\ fst (authenticate Model.platform
            (Scenario.answer [Scenario.steamProviderWithQuery])
            "https://steamcommunity.com/openid" Scenario.returnUrl
            Scenario.client)
     = Ok Scenario.steamRedirect
  /\ (forall (P : Platform) (identifier returnUrl : string) (w : World),
         fst (authenticate P
                (Scenario.answer
                   [mkProvider None None; Scenario.steamProviderWithQuery])
                identifier returnUrl w)
         = Err MissingEndpoint).
Proof.
  split; [|split; [vm_compute; reflexivity|]].
  - intros P discover identifier returnUrl w provider rest theUrl parsedUrl
           Hd He Hne Hu Hs.
    destruct (authenticate_first_usable P discover identifier returnUrl w
                provider rest theUrl parsedUrl Hd He Hne Hu Hs) as [Hok _].
    split; [exact Hok|]. repeat split.
  - intros P identifier returnUrl w. reflexivity.
Qed.

(** ** Runs on the executable platform *)

Section Runs.

Local Open Scope string_scope.

Lemma first_validation_succeeds :
  Scenario.first = (Ok Scenario.verified,
           mkWorld {[ "2024-01-01T00:00:00Zabc" := Scenario.stamp ]}
                   (Scenario.stamp + 60000) [Scenario.steamId]).
Proof. vm_compute. reflexivity. Qed.

(** C1, where the claim fails: the response is validated, and validated
    again ten minutes after its nonce was issued. The second call fails, but
    with [NonceSkewTooLarge]: the sweep has dropped the stored nonce and the
    replay check is never reached. *)
Lemma replay_after_window_is_skew :
  fst Scenario.first = Ok Scenario.verified
  /\ fst (Scenario.validate Scenario.responseUrl Scenario.returnUrl
            (at_time (Scenario.stamp + 600000) (snd Scenario.first)))
     = Err NonceSkewTooLarge
  /\ fst (Scenario.validate Scenario.responseUrl Scenario.returnUrl
            (at_time (Scenario.stamp + 600000) (snd Scenario.first)))
     <> Err NonceReplayed.
Proof.
  split; [vm_compute; reflexivity|].
  split; [vm_compute; reflexivity|]. vm_compute. discriminate.
Qed.

(** C1 at work: the same response again two minutes after its nonce was
    issued is a replay. *)
Lemma validateResponse_second_call_fails_witness :
  fst Scenario.first = Ok Scenario.verified
  /\ fst (Scenario.validate Scenario.responseUrl Scenario.returnUrl
            (at_time (Scenario.stamp + 120000) (snd Scenario.first)))
     = Err NonceReplayed.
Proof.
  split; [vm_compute; reflexivity|].
  destruct (Model.newURL (trim Scenario.responseUrl)) as [u|] eqn:Hu;
    [|vm_compute in Hu; discriminate].
  destruct (validateResponse_second_call_fails Model.platform
              Model.discover Model.discover Scenario.responseUrl
              Scenario.returnUrl Scenario.client (snd Scenario.first)
              Scenario.verified u (Scenario.stamp + 120000) Hu)
    as [nonce [ts [Hg [He [_ [Hreplay _]]]]]].
  - vm_compute in Hu. inversion Hu. vm_compute. reflexivity.
  - vm_compute. reflexivity.
  - apply Hreplay. vm_compute in Hu. inversion Hu; subst u.
    vm_compute in Hg. inversion Hg; subst nonce.
    vm_compute in He. inversion He; subst ts. vm_compute. discriminate.
Defined.

(** C2 at work: after one accepted response, the replay check of a second
    one finds the token in the swept store. *)
Lemma nonce_store_invariant_witness :
  let w := run Model.platform (Scenario.stamp + 60000)
             [CallValidateResponse Model.discover Scenario.responseUrl
                Scenario.returnUrl;
              ClockMoves (Scenario.stamp + 120000)] in
  sweptNonces w !! "2024-01-01T00:00:00Zabc" = Some Scenario.stamp
  /\ freshAt (now w) (sweptNonces w)
  /\ fst (checkNonce Model.platform Scenario.nonceParams w) = Err NonceReplayed.
Proof.
  intros w.
  pose proof (nonce_store_invariant Model.platform (Scenario.stamp + 60000)
                [CallValidateResponse Model.discover Scenario.responseUrl
                   Scenario.returnUrl;
                 ClockMoves (Scenario.stamp + 120000)]
                Scenario.nonceParams) as H.
  cbv zeta in H. fold w in H. destruct H as (_ & _ & Hsweep & Hfresh & Hcheck).
  split; [|split; [exact Hfresh|]].
  - apply Hsweep. split; [vm_compute; reflexivity | vm_compute; discriminate].
  - destruct (Hcheck "2024-01-01T00:00:00Zabc" "2024-01-01T00:00:00Z" "abc"
                Scenario.stamp eq_refl eq_refl eq_refl eq_refl)
      as [[Hgt _]|[(_ & _ & Hr & _)|(_ & Hnone & _)]].
    + vm_compute in Hgt. discriminate.
    + exact Hr.
    + vm_compute in Hnone. discriminate.
Defined.

(** C4 at work: a nonce exactly five minutes old is accepted, one a
    millisecond older is not. *)
Lemma checkNonce_skew_boundary_witness :
  fst (checkNonce Model.platform Scenario.nonceParams
         (newClient (Scenario.stamp + 300000))) = Ok tt
  /\ fst (checkNonce Model.platform Scenario.nonceParams
            (newClient (Scenario.stamp + 300001))) = Err NonceSkewTooLarge.
Proof.
  split.
  - apply (checkNonce_skew_boundary Model.platform Scenario.nonceParams
             (newClient (Scenario.stamp + 300000))
             "2024-01-01T00:00:00Zabc" "2024-01-01T00:00:00Z" "abc"
             Scenario.stamp eq_refl eq_refl eq_refl eq_refl);
      reflexivity.
  - apply (checkNonce_skew_boundary Model.platform Scenario.nonceParams
             (newClient (Scenario.stamp + 300001))
             "2024-01-01T00:00:00Zabc" "2024-01-01T00:00:00Z" "abc"
             Scenario.stamp eq_refl eq_refl eq_refl eq_refl).
    reflexivity.
Defined.

(** C5, where the claim fails: the return URL carries [a=1]; the response
    carries it too, verbatim, after the provider's parameters. Every
    parameter of the return URL is a substring of the response's query
    string, and the binding check fails with [QueryParamMismatch]. *)
Lemma reordered_parameters_rejected :
  match Model.newURL (trim Scenario.responseUrlReordered),
        Model.newURL Scenario.returnUrlWithQuery with
  | Some assertionUrl, Some parsedClient =>
      queryParameters (search parsedClient) = ["a=1"]
      /\ everyParameterAppears (search parsedClient) (search assertionUrl)
         = true
      /\ checkReturnUrlsAreValid Model.platform assertionUrl
           Scenario.returnUrlWithQuery
         = Err QueryParamMismatch
  | _, _ => False
  end
  /\ fst (Scenario.validate Scenario.responseUrlReordered
            Scenario.returnUrlWithQuery Scenario.client)
     = Err QueryParamMismatch.
Proof. vm_compute. repeat split. Qed.

(** C5 at work: with the provider's parameters appended after the return
    URL's own, the binding check passes. *)
Lemma checkReturnUrlsAreValid_query_witness :
  match Model.newURL (trim Scenario.responseUrlAppended) with
  | Some assertionUrl =>
      checkReturnUrlsAreValid Model.platform assertionUrl
        Scenario.returnUrlWithQuery = Ok tt
      /\ everyParameterAppears "?a=1" (search assertionUrl) = true
  | None => False
  end.
Proof.
  destruct (Model.newURL (trim Scenario.responseUrlAppended))
    as [assertionUrl|] eqn:Hu; [|vm_compute in Hu; discriminate].
  destruct (Model.newURL Scenario.returnUrlWithQuery)
    as [parsed|] eqn:Hp; [|vm_compute in Hp; discriminate].
  assert (Hsearch : search parsed = "?a=1").
  { vm_compute in Hp. inversion Hp. reflexivity. }
  assert (Hresponse : search assertionUrl
                      = "?a=1" ++ "&openid.mode=id_res"
                        ++ "&openid.return_to=https%3A%2F%2Fa.example%2Fcb%3Fa%3D1").
  { vm_compute in Hu. inversion Hu. reflexivity. }
  destruct (checkReturnUrlsAreValid_query Model.platform assertionUrl
              Scenario.returnUrlWithQuery Scenario.returnUrlWithQuery
              parsed parsed) as (_ & Hok & Hall); trivial.
  - discriminate.
  - vm_compute in Hu. inversion Hu. reflexivity.
  - discriminate.
  - assert (Hpass : checkReturnUrlsAreValid Model.platform assertionUrl
                      Scenario.returnUrlWithQuery = Ok tt).
    { apply Hok. right. right. rewrite Hsearch, Hresponse.
      exists "". eexists. reflexivity. }
    split; [exact Hpass|]. rewrite <- Hsearch. apply Hall; [exact Hpass|].
    rewrite Hresponse. discriminate.
Defined.

(** C6 at work. *)
Lemma validateResponse_cancel_witness :
  Scenario.validate Scenario.cancelUrl Scenario.returnUrl Scenario.client
  = (Err AuthenticationCancelled, Scenario.client).
Proof.
  destruct (Model.newURL (trim Scenario.cancelUrl)) as [u|] eqn:Hu;
    [|vm_compute in Hu; discriminate].
  apply (validateResponse_cancel Model.platform Model.discover
           Scenario.cancelUrl Scenario.returnUrl Scenario.client u Hu);
    vm_compute in Hu; inversion Hu; vm_compute; reflexivity.
Defined.

(** C7 at work: the identifier of the specification's example. *)
Lemma validateResponse_claimed_fragment_witness :
  getCanonicalClaimedIdentifier (Scenario.steamId ++ "#frag")
  = Scenario.steamId
  /\ queries (snd Scenario.first)
     = (queries Scenario.client ++ [Scenario.steamId])%list
  /\ (exists providers,
        Model.discover Scenario.steamId = Resolved providers
        /\ noProviders providers = false)
  /\ Scenario.verified
     = mkProviderResponse (Some true) (Some (Scenario.steamId ++ "#frag")).
Proof.
  destruct (Model.newURL (trim Scenario.responseUrl)) as [u|] eqn:Hu;
    [|vm_compute in Hu; discriminate].
  apply (validateResponse_claimed_fragment Model.platform Model.discover
           Scenario.responseUrl Scenario.returnUrl Scenario.client
           (snd Scenario.first) Scenario.verified u Scenario.steamId "frag" Hu).
  - vm_compute in Hu. inversion Hu. vm_compute. reflexivity.
  - vm_compute. reflexivity.
  - vm_compute. reflexivity.
Defined.

(** C8, where the claim fails: a response URL the [URL] constructor rejects.
    The call ends in its [TypeError] before [returnUrl] is looked at. *)
Lemma malformed_response_precedes_empty_returnUrl :
  Scenario.validate "not a url" "" Scenario.client
  = (Err (InvalidURL "not a url"), Scenario.client)
  /\ fst (Scenario.validate "not a url" "" Scenario.client)
     <> Err EmptyClientReturnUrl.
Proof. split; [vm_compute; reflexivity | vm_compute; discriminate]. Qed.

(** C8 at work. *)
Lemma validateResponse_empty_returnUrl_witness :
  Scenario.validate Scenario.responseUrl "" Scenario.client
  = (Err EmptyClientReturnUrl, Scenario.client).
Proof.
  destruct (Model.newURL (trim Scenario.responseUrl)) as [u|] eqn:Hu;
    [|vm_compute in Hu; discriminate].
  exact (validateResponse_empty_returnUrl Model.platform Model.discover
           Scenario.responseUrl Scenario.client u Hu).
Defined.

(** An endpoint that is not an absolute URL: the [URL] constructor throws
    and [authenticate] ends with its [TypeError]. *)
Lemma authenticate_relative_endpoint :
  fst (authenticate Model.platform (Scenario.answer [Scenario.relativeProvider])
         "https://steamcommunity.com/openid" Scenario.returnUrl Scenario.client)
  = Err (InvalidURL "steamcommunity.com/openid/login").
Proof. vm_compute. reflexivity. Qed.

(** C9 at work: the query of the endpoint is gone from the redirect URL. *)
Lemma authenticate_redirect_url_witness :
  fst (authenticate Model.platform
         (Scenario.answer [Scenario.steamProviderWithQuery; mkProvider None None])
         "https://steamcommunity.com/openid" Scenario.returnUrl Scenario.client)
  = Ok Scenario.steamRedirect.
Proof.
  destruct (Model.newURL "https://steamcommunity.com/openid/login?lang=en")
    as [u|] eqn:Hu; [|vm_compute in Hu; discriminate].
  assert (Hne : "https://steamcommunity.com/openid/login?lang=en" <> "")
    by discriminate.
  assert (Hs : urlToString Model.platform
                 (requestUrl Model.platform u Scenario.returnUrl) <> "").
  { vm_compute in Hu. inversion Hu. vm_compute. discriminate. }
  pose proof (proj1 authenticate_redirect_url Model.platform
                (Scenario.answer
                   [Scenario.steamProviderWithQuery; mkProvider None None])
                "https://steamcommunity.com/openid" Scenario.returnUrl
                Scenario.client Scenario.steamProviderWithQuery
                [mkProvider None None]
                "https://steamcommunity.com/openid/login?lang=en" u
                eq_refl eq_refl Hne Hu Hs) as [Hok _].
  rewrite Hok. vm_compute in Hu. inversion Hu. vm_compute. reflexivity.
Defined.

End Runs.

(** C10: the nonce is stored under the parameter value as received, while
    its timestamp is read from the trimmed value; so the response of
    [Scenario.responseUrl] and the same response with a space in front of the
    nonce are both accepted, one after the other, and the store ends with two
    entries of the same timestamp. *)
Theorem padded_nonce_is_not_a_replay :
  (forall (P : Platform) (params : URLSearchParams) (w w' : World),
      isOpenId1 params = false ->
      checkNonce P params w = (Ok tt, w') ->
      exists nonce stamp tail ts,
        SearchParams.get "openid.response_nonce" params = Some nonce
        /\ matchNonce (trim nonce) = Some (stamp, tail)
        /\ dateGetTime P stamp = Some ts
        /\ sweptNonces w !! nonce = None
        /\ nonces w' = <[nonce := ts]> (sweptNonces w))
  /\ exists (u1 u2 : URL) (n1 n2 : string) (w2 : World),
       Model.newURL (trim Scenario.responseUrl) = Some u1
       /\ Model.newURL (trim Scenario.responseUrlPadded) = Some u2
       /\ SearchParams.get "openid.response_nonce" (searchParams u1) = Some n1
       /\ SearchParams.get "openid.response_nonce" (searchParams u2) = Some n2
       /\ n2 = String " " n1
       /\ trim n2 = trim n1
       /\ searchParams u2
          = map (fun kv =>
                   if String.eqb (fst kv) "openid.response_nonce"
                   then (fst kv, String " " (snd kv)) else kv)
                (searchParams u1)
       /\ isOpenId1 (searchParams u1) = false
       /\ fst Scenario.first = Ok Scenario.verified
       /\ Scenario.validate Scenario.responseUrlPadded Scenario.returnUrl
            (snd Scenario.first)
          = (Ok Scenario.verified, w2)
       /\ nonces w2 !! n1 = Some Scenario.stamp
       /\ nonces w2 !! n2 = Some Scenario.stamp.
Proof.
  split.
  - intros P params w w' Hv H.
    destruct (checkNonce_ok P params w w' Hv H)
      as [nonce [stamp [tail [ts [Hg [Hm [Hd [_ [Hnone ->]]]]]]]]].
    exists nonce, stamp, tail, ts. auto.
  - destruct (Model.newURL (trim Scenario.responseUrl)) as [u1|] eqn:H1;
      [|vm_compute in H1; discriminate].
    destruct (Model.newURL (trim Scenario.responseUrlPadded)) as [u2|] eqn:H2;
      [|vm_compute in H2; discriminate].
    vm_compute in H1. vm_compute in H2. inversion H1. inversion H2.
    exists u1, u2, "2024-01-01T00:00:00Zabc"%string,
           " 2024-01-01T00:00:00Zabc"%string,
           (snd (Scenario.validate Scenario.responseUrlPadded
                   Scenario.returnUrl (snd Scenario.first))).
    subst u1 u2. repeat (split; [vm_compute; reflexivity|]).
    vm_compute. reflexivity.
Qed.

(** * Further properties of the client *)

(** ** Building the redirect URL *)

Section BuildUrlFacts.

Variable P : Platform.

Local Open Scope string_scope.

Lemma get_None_keys (name : string) (l : URLSearchParams) :
  SearchParams.get name l = None <-> ~ In name (map fst l).
Proof.
  induction l as [|[k v] l IH]; simpl.
  - tauto.
  - destruct (String.eqb_spec k name) as [->|Hne].
    + split; [discriminate | intros H; exfalso; apply H; now left].
    + rewrite IH. split.
      * intros H [Hk|Hin]; [congruence | contradiction].
      * intros H Hin. apply H. now right.
Qed.

(** Setting a name the list does not have appends the pair. *)
Lemma set_fresh (name value : string) (l : URLSearchParams) :
  SearchParams.get name l = None ->
  SearchParams.set name value l = (l ++ [(name, value)])%list.
Proof.
  induction l as [|[k v] l IH]; simpl; [reflexivity|].
  destruct (String.eqb k name); [discriminate|].
  intros H. now rewrite (IH H).
Qed.

Lemma fold_set_distinct (params : list (string * string)) :
  forall u : URL,
    List.NoDup (map fst (searchParams u ++ params)%list) ->
    fold_left (fun u kv => searchParamsSet P u (fst kv) (snd kv)) params u
    = match params with
      | [] => u
      | _ :: _ =>
          mkURL (protocol u) (username u) (password u) (host u) (pathname u)
                (writtenSearch P (searchParams u ++ params)%list) (hash u)
                (searchParams u ++ params)%list
      end.
Proof.
  induction params as [|[k v] params IH]; intros u Hnd; [reflexivity|].
  cbn [fold_left fst snd].
  assert (Hfresh : SearchParams.get k (searchParams u) = None).
  { apply get_None_keys. intros Hin.
    rewrite map_app in Hnd. apply NoDup_app_remove_r in Hnd as Hl.
    clear Hl. revert Hnd Hin. generalize (map fst (searchParams u)).
    intros keys Hnd Hin. induction keys as [|x keys IHk]; [destruct Hin|].
    simpl in Hnd. inversion Hnd as [|? ? Hx Hrest]; subst.
    destruct Hin as [->|Hin]; [|exact (IHk Hrest Hin)].
    apply Hx. apply in_or_app. right. now left. }
  assert (Hset : searchParamsSet P u k v
                 = mkURL (protocol u) (username u) (password u) (host u)
                         (pathname u)
                         (writtenSearch P (searchParams u ++ [(k, v)])%list)
                         (hash u) (searchParams u ++ [(k, v)])%list).
  { unfold searchParamsSet, writtenSearch. now rewrite (set_fresh _ _ _ Hfresh). }
  rewrite Hset. rewrite IH.
  - cbn [protocol username password host pathname hash searchParams].
    rewrite <- !app_assoc. cbn [app]. destruct params; reflexivity.
  - cbn [searchParams]. rewrite <- app_assoc. exact Hnd.
Qed.

End BuildUrlFacts.

Section AuthenticateFacts.

Variable P : Platform.

Local Open Scope string_scope.

(** X1: for request parameters with distinct names, as the keys of an
    object are, [buildUrl] throws the [TypeError] of the [URL] constructor on
    an endpoint it rejects, and otherwise returns the serialisation of the
    endpoint with its scheme, credentials, host, path and fragment kept, its
    own query and parameters dropped, and the request parameters in their
    place, in the order given. *)
Theorem buildUrl_replaces_query (theUrl : string)
    (params : list (string * string)) :
  List.NoDup (map fst params) ->
  buildUrl P theUrl params
  = match newURL P theUrl with
    | None => Err (InvalidURL theUrl)
    | Some u =>
        Ok (urlToString P
              (mkURL (protocol u) (username u) (password u) (host u)
                     (pathname u)
                     (match params with
                      | [] => ""
                      | _ :: _ => writtenSearch P params
                      end)
                     (hash u) params))
    end.
Proof.
  intros Hnd. unfold buildUrl. destruct (newURL P theUrl) as [u|]; [|reflexivity].
  rewrite (fold_set_distinct P params (clearSearch u) Hnd).
  destruct params; reflexivity.
Qed.

(** X2: [requestAuthentication] fails with [MissingEndpoint] exactly when
    the endpoint is absent or the empty string, with the [TypeError] of the
    [URL] constructor exactly when the endpoint is a non-empty string the
    constructor rejects, and returns the serialised request URL in the one
    remaining case. *)
Theorem requestAuthentication_outcome (provider : Provider)
    (returnUrl : string) :
  (requestAuthentication P provider returnUrl = Err MissingEndpoint
   <-> endpoint provider = None \/ endpoint provider = Some "")
  /\ (forall e, requestAuthentication P provider returnUrl = Err e ->
                e = MissingEndpoint
                \/ exists theUrl, e = InvalidURL theUrl
                                  /\ endpoint provider = Some theUrl
                                  /\ theUrl <> ""
                                  /\ newURL P theUrl = None)
  /\ (forall url, requestAuthentication P provider returnUrl = Ok url ->
                  exists theUrl parsedUrl,
                    endpoint provider = Some theUrl
                    /\ theUrl <> ""
                    /\ newURL P theUrl = Some parsedUrl
                    /\ url = urlToString P (requestUrl P parsedUrl returnUrl)).
Proof.
  unfold requestAuthentication.
  destruct (endpoint provider) as [theUrl|]; cbn [missing].
  2:{ split; [|split].
      - split; auto.
      - intros e H. inversion H. now left.
      - discriminate. }
  destruct theUrl as [|c theUrl]; cbn [falsy].
  { split; [|split].
    - split; auto.
    - intros e H. inversion H. now left.
    - discriminate. }
  unfold buildUrl.
  destruct (newURL P (String c theUrl)) as [parsedUrl|] eqn:Hu.
  - split; [|split].
    + split; [discriminate|]. intros [H|H]; discriminate.
    + discriminate.
    + intros url H. inversion H. exists (String c theUrl), parsedUrl.
      repeat split; [discriminate | exact Hu].
  - split; [|split].
    + split; [discriminate|]. intros [H|H]; discriminate.
    + intros e H. inversion H. right. exists (String c theUrl).
      repeat split; [discriminate | exact Hu].
    + discriminate.
Qed.

Lemma requestAuthentication_errors (provider : Provider) (returnUrl : string)
    (e : error) :
  requestAuthentication P provider returnUrl = Err e ->
  e = MissingEndpoint \/ exists s, e = InvalidURL s.
Proof.
  unfold requestAuthentication. destruct (missing (endpoint provider)).
  { intros H. inversion H. now left. }
  destruct (endpoint provider) as [theUrl|];
    [|intros H; inversion H; now left].
  unfold buildUrl. destruct (newURL P theUrl); [discriminate|].
  intros H. inversion H. right. eauto.
Qed.

(** The failures [chooseProvider] can end in. *)
Lemma chooseProvider_errors (providers : list Provider) (returnUrl : string)
    (e : error) :
  chooseProvider P providers returnUrl = Err e ->
  e = NoUsableProviders \/ e = MissingEndpoint \/ exists s, e = InvalidURL s.
Proof.
  induction providers as [|provider rest IH]; cbn [chooseProvider].
  - intros H. inversion H. now left.
  - destruct (requestAuthentication P provider returnUrl) as [url|e'] eqn:Hr;
      unfold mbind, result_bind.
    + destruct (falsy url); [exact IH | discriminate].
    + intros H. inversion H; subst e'.
      destruct (requestAuthentication_errors provider returnUrl e Hr)
        as [->|[s ->]]; eauto.
Qed.

End AuthenticateFacts.

Section AuthenticateOutcome.

Variable P : Platform.

(** X3: [authenticate] calls [discover] once, on the identifier as given,
    and leaves the nonce store and the clock alone, however it ends. It fails
    with [DiscoveryFailed] exactly when discovery is rejected, and with
    [NoProvidersFound] exactly when discovery resolves to nothing or to an
    empty list. *)
Theorem authenticate_outcome (discover : string -> discovery)
    (identifier returnUrl : string) (w : World) :
  snd (authenticate P discover identifier returnUrl w)
  = mkWorld (nonces w) (now w) (queries w ++ [identifier])
  /\ (fst (authenticate P discover identifier returnUrl w) = Err DiscoveryFailed
      <-> discover identifier = Rejected)
  /\ (forall other,
        fst (authenticate P discover identifier returnUrl w)
        = Err (NoProvidersFound other)
        <-> other = identifier
            /\ (discover identifier = Resolved None
                \/ discover identifier = Resolved (Some []))).
Proof.
  unfold authenticate, mbind, M_bind, callDiscover.
  destruct (discover identifier) as [|providers] eqn:Hd.
  { cbn [fst snd]. split; [reflexivity|]. split; [tauto|].
    intros other. split; [discriminate|]. intros [_ [H|H]]; discriminate. }
  destruct providers as [[|provider rest]|]; cbn [noProviders].
  - unfold mthrow, M_throw. cbn [fst snd].
    split; [reflexivity|]. split; [split; discriminate|].
    intros other. split.
    + intros H. inversion H. auto.
    + intros [-> _]. reflexivity.
  - cbn [lift fst snd default].
    change (id (provider :: rest)) with (provider :: rest).
    split; [reflexivity|].
    destruct (chooseProvider P (provider :: rest) returnUrl) as [url|e] eqn:Hc.
    + split; [split; discriminate|]. intros other.
      split; [discriminate|]. intros [_ [H|H]]; discriminate.
    + destruct (chooseProvider_errors P _ _ _ Hc) as [->|[->|[s ->]]].
      all: split; [split; discriminate|]; intros other;
        split; [discriminate|]; intros [_ [H|H]]; discriminate.
  - unfold mthrow, M_throw. cbn [fst snd].
    split; [reflexivity|]. split; [split; discriminate|].
    intros other. split.
    + intros H. inversion H. auto.
    + intros [-> _]. reflexivity.
Qed.

End AuthenticateOutcome.

(** ** What a call of [validateResponse] leaves behind *)

Section StageFacts.

Variable P : Platform.

Lemma checkReturnUrlsAreValid_stage (u : URL) (returnUrl : string) (e : error) :
  checkReturnUrlsAreValid P u returnUrl = Err e ->
  failedStage e = Some BindingStage.
Proof.
  unfold checkReturnUrlsAreValid, parseURL.
  destruct (falsy returnUrl); [intros H; inversion H; reflexivity|].
  destruct (SearchParams.get "openid.return_to" (searchParams u)) as [r|];
    [|intros H; inversion H; reflexivity].
  destruct (falsy r); [intros H; inversion H; reflexivity|].
  destruct (newURL P r) as [pr|]; [|intros H; inversion H; reflexivity].
  destruct (newURL P returnUrl) as [pc|]; [|intros H; inversion H; reflexivity].
  destruct (_ || _ || _); [intros H; inversion H; reflexivity|].
  destruct (_ && _ && _); [intros H; inversion H; reflexivity|discriminate].
Qed.

Lemma checkParams_stage (params : option URLSearchParams) (e : error) :
  checkParams params = Err e -> failedStage e = Some ParamsStage.
Proof.
  unfold checkParams. destruct params as [params|];
    [|intros H; inversion H; reflexivity].
  repeat case_bool_decide; intros Herr; inversion Herr; reflexivity.
Qed.

Lemma checkNonce_stage (params : URLSearchParams) (w w' : World) (e : error) :
  checkNonce P params w = (Err e, w') -> failedStage e = Some NonceStage.
Proof.
  destruct (checkNonce_cases P params w)
    as [[_ ->]|[[_ [e' [-> He]]]|[Hv [nonce [stamp [tail [ts [Hn [Hm Hd]]]]]]]]].
  - discriminate.
  - intros H. inversion H; subst. destruct He as [->|[->| ->]]; reflexivity.
  - rewrite (checkNonce_checked P _ w _ _ _ _ Hv Hn Hm Hd).
    destruct (_ >? _); [intros H; inversion H; reflexivity|].
    destruct (hasProperty _ _); [intros H; inversion H; reflexivity|discriminate].
Qed.

Lemma verifyDiscoveredInformation_stage (discover : string -> discovery)
    (params : URLSearchParams) (w w' : World) (e : error) :
  verifyDiscoveredInformation discover params w = (Err e, w') ->
  failedStage e = Some VerificationStage.
Proof.
  unfold verifyDiscoveredInformation.
  destruct (SearchParams.get "openid.claimed_id" params) as [claimed|];
    [|intros H; inversion H; reflexivity].
  destruct (falsy claimed); [intros H; inversion H; reflexivity|].
  unfold mbind, M_bind, callDiscover.
  destruct (discover _) as [|providers]; [intros H; inversion H; reflexivity|].
  destruct (noProviders providers); [intros H; inversion H; reflexivity|].
  destruct (_ || _); [intros H; inversion H; reflexivity|discriminate].
Qed.

(** The store [checkNonce] leaves never has an entry the store before did
    not have, but for the nonce it accepts. *)
Lemma checkNonce_entries (params : URLSearchParams) (w : World)
    (k : string) (d : Z) :
  nonces (snd (checkNonce P params w)) !! k = Some d ->
  nonces w !! k = Some d
  \/ (fst (checkNonce P params w) = Ok tt
      /\ SearchParams.get "openid.response_nonce" params = Some k
      /\ embeddedTimestamp P k = Some d).
Proof.
  destruct (checkNonce_cases P params w)
    as [[_ ->]|[[_ [e' [-> He]]]|[Hv [nonce [stamp [tail [ts [Hn [Hm Hd]]]]]]]]];
    [now left | now left |].
  rewrite (checkNonce_checked P _ w _ _ _ _ Hv Hn Hm Hd).
  destruct (_ >? _).
  { cbn [snd nonces]. intros H. left. now apply sweptNonces_lookup in H. }
  destruct (hasProperty _ _).
  { cbn [snd nonces]. intros H. left. now apply sweptNonces_lookup in H. }
  cbn [snd fst nonces]. destruct (decide (nonce = k)) as [<-|Hne].
  - rewrite lookup_insert_eq. intros H. inversion H; subst. right.
    split; [reflexivity|]. split; [exact Hn|].
    unfold embeddedTimestamp. now rewrite Hm.
  - rewrite lookup_insert_ne by exact Hne. intros H. left.
    now apply sweptNonces_lookup in H.
Qed.

End StageFacts.

Section ValidationFacts.

Variable P : Platform.

Local Open Scope string_scope.

(** What a passed binding check has established. *)
Lemma checkReturnUrlsAreValid_ok (u : URL) (returnUrl : string) :
  checkReturnUrlsAreValid P u returnUrl = Ok tt ->
  returnUrl <> ""
  /\ exists returnTo parsedReturnTo parsedClient,
       SearchParams.get "openid.return_to" (searchParams u) = Some returnTo
       /\ returnTo <> ""
       /\ newURL P returnTo = Some parsedReturnTo
       /\ newURL P returnUrl = Some parsedClient
       /\ protocol parsedClient = protocol parsedReturnTo
       /\ host parsedClient = host parsedReturnTo
       /\ pathname parsedClient = pathname parsedReturnTo.
Proof.
  unfold checkReturnUrlsAreValid, parseURL.
  destruct (falsy returnUrl) eqn:Hr; [discriminate|].
  destruct (SearchParams.get "openid.return_to" (searchParams u)) as [r|]
    eqn:Hg; [|discriminate].
  destruct (falsy r) eqn:Hrt; [discriminate|].
  destruct (newURL P r) as [pr|] eqn:Hpr; [|discriminate].
  destruct (newURL P returnUrl) as [pc|] eqn:Hpc; [|discriminate].
  destruct (String.eqb_spec (protocol pc) (protocol pr)) as [Hp|];
    [|discriminate].
  destruct (String.eqb_spec (host pc) (host pr)) as [Hh|]; [|discriminate].
  destruct (String.eqb_spec (pathname pc) (pathname pr)) as [Hn|];
    [|discriminate].
  intros _. apply falsy_false in Hr. apply falsy_false in Hrt.
  split; [exact Hr|]. exists r, pr, pc. auto 10.
Qed.

Lemma checkParams_ok (params : URLSearchParams) :
  checkParams (Some params) = Ok tt <->
  SearchParams.get "openid.mode" params <> Some "error"
  /\ SearchParams.get "openid.mode" params <> Some "cancel".
Proof.
  unfold checkParams.
  repeat case_bool_decide;
    (split; [try discriminate; intros _; split; assumption
            | intros [H1 H2]; try reflexivity; congruence]).
Qed.

(** The answer of [verifyDiscoveredInformation] does not depend on the
    client it runs on. *)
Lemma verifyDiscoveredInformation_result (discover : string -> discovery)
    (params : URLSearchParams) (w1 w2 : World) :
  fst (verifyDiscoveredInformation discover params w1)
  = fst (verifyDiscoveredInformation discover params w2).
Proof.
  unfold verifyDiscoveredInformation.
  destruct (SearchParams.get "openid.claimed_id" params) as [claimed|];
    [|reflexivity].
  destruct (falsy claimed); [reflexivity|].
  unfold mbind, M_bind, callDiscover.
  destruct (discover _) as [|providers]; [reflexivity|].
  destruct (noProviders providers); [reflexivity|].
  destruct (_ || _); reflexivity.
Qed.

(** A response whose nonce sits in the swept store is a replay, whatever
    discovery would answer. *)
Lemma stored_nonce_is_replayed (discover : string -> discovery)
    (responseUrl returnUrl : string) (w : World) (u : URL)
    (nonce stamp tail : string) (ts d : Z) :
  newURL P (trim responseUrl) = Some u ->
  checkReturnUrlsAreValid P u returnUrl = Ok tt ->
  checkParams (Some (searchParams u)) = Ok tt ->
  isOpenId1 (searchParams u) = false ->
  SearchParams.get "openid.response_nonce" (searchParams u) = Some nonce ->
  matchNonce (trim nonce) = Some (stamp, tail) ->
  dateGetTime P stamp = Some ts ->
  Z.abs (now w - ts) <= FIVE_MINUTES_IN_MS ->
  sweptNonces w !! nonce = Some d ->
  fst (validateResponse P discover responseUrl returnUrl w) = Err NonceReplayed.
Proof.
  intros Hu Hr Hp Hv Hn Hm Hd Hle Hk.
  rewrite validateResponse_stages, Hu, Hr, Hp.
  rewrite (checkNonce_checked P _ w _ _ _ _ Hv Hn Hm Hd).
  destruct (Z.gtb_spec (Z.abs (now w - ts)) FIVE_MINUTES_IN_MS); [lia|].
  now rewrite (hasProperty_lookup _ _ _ Hk).
Qed.

(** X4: the state a failed [validateResponse] leaves. A failure of the
    [URL] constructor, of the binding check or of the parameter check leaves
    the client exactly as it was. A failure of the nonce check makes no
    discovery and adds no entry to the store (it may have swept it). A
    failure of the last step comes after an accepted nonce, and the store is
    the one [checkNonce] left. *)
Theorem validateResponse_failure_effect (discover : string -> discovery)
    (responseUrl returnUrl : string) (w w' : World) (e : error) :
  validateResponse P discover responseUrl returnUrl w = (Err e, w') ->
  match failedStage e with
  | Some ParseStage | Some BindingStage | Some ParamsStage => w' = w
  | Some NonceStage =>
      now w' = now w /\ queries w' = queries w
      /\ forall k d, nonces w' !! k = Some d -> nonces w !! k = Some d
  | Some VerificationStage =>
      exists u,
        newURL P (trim responseUrl) = Some u
        /\ fst (checkNonce P (searchParams u) w) = Ok tt
        /\ nonces w' = nonces (snd (checkNonce P (searchParams u) w))
        /\ now w' = now w
  | None => False
  end.
Proof.
  rewrite validateResponse_stages.
  destruct (newURL P (trim responseUrl)) as [u|].
  2:{ intros H. inversion H. reflexivity. }
  destruct (checkReturnUrlsAreValid P u returnUrl) as [[]|e1] eqn:Hr.
  2:{ intros H. inversion H; subst.
      now rewrite (checkReturnUrlsAreValid_stage P _ _ _ Hr). }
  destruct (checkParams (Some (searchParams u))) as [[]|e2] eqn:Hp.
  2:{ intros H. inversion H; subst. now rewrite (checkParams_stage _ _ Hp). }
  pose proof (checkNonce_frame P (searchParams u) w) as [Hnow Hq].
  pose proof (checkNonce_entries P (searchParams u) w) as Hent.
  destruct (checkNonce P (searchParams u) w) as [[[]|e3] wn] eqn:Hn.
  2:{ intros H. inversion H; subst. rewrite (checkNonce_stage P _ _ _ _ Hn).
      cbn [snd fst] in *. split; [exact Hnow|]. split; [exact Hq|].
      intros k d Hk. destruct (Hent k d Hk) as [Hold|[Hbad _]];
        [exact Hold | discriminate]. }
  intros H. rewrite (verifyDiscoveredInformation_stage _ _ _ _ _ H).
  exists u. rewrite Hn. cbn [snd fst] in *.
  split; [reflexivity|]. split; [reflexivity|].
  pose proof (verifyDiscoveredInformation_nonces discover (searchParams u) wn)
    as Hsame. rewrite H in Hsame. cbn [snd] in Hsame. split; [exact Hsame|].
  revert H. unfold verifyDiscoveredInformation.
  destruct (SearchParams.get "openid.claimed_id" (searchParams u)) as [c|];
    [|intros H; inversion H; subst; exact Hnow].
  destruct (falsy c); [intros H; inversion H; subst; exact Hnow|].
  unfold mbind, M_bind, callDiscover.
  destruct (discover _) as [|providers];
    [intros H; inversion H; subst; exact Hnow|].
  destruct (noProviders providers);
    [intros H; inversion H; subst; exact Hnow|].
  destruct (_ || _); [intros H; inversion H; subst; exact Hnow|discriminate].
Qed.

(** X5: a response whose [openid.mode] is [error] and whose return URL
    passes the binding check fails with the provider's [openid.error] as its
    message ([None] when the response carries none), before the nonce is
    looked at: the client is exactly as before the call. *)
Theorem validateResponse_provider_error (discover : string -> discovery)
    (responseUrl returnUrl : string) (w : World) (u : URL) :
  newURL P (trim responseUrl) = Some u ->
  checkReturnUrlsAreValid P u returnUrl = Ok tt ->
  SearchParams.get "openid.mode" (searchParams u) = Some "error" ->
  validateResponse P discover responseUrl returnUrl w
  = (Err (ProviderError (SearchParams.get "openid.error" (searchParams u))), w).
Proof.
  intros Hu Hr Hm. rewrite validateResponse_stages, Hu, Hr.
  unfold checkParams. rewrite Hm. reflexivity.
Qed.

(** The client [verifyDiscoveredInformation] leaves: untouched, or with
    the one discovery recorded. *)
Lemma verifyDiscoveredInformation_world (discover : string -> discovery)
    (params : URLSearchParams) (w : World) :
  snd (verifyDiscoveredInformation discover params w) = w
  \/ exists claimed,
       SearchParams.get "openid.claimed_id" params = Some claimed
       /\ claimed <> ""
       /\ snd (verifyDiscoveredInformation discover params w)
          = mkWorld (nonces w) (now w)
              (queries w ++ [getCanonicalClaimedIdentifier claimed])%list.
Proof.
  unfold verifyDiscoveredInformation.
  destruct (SearchParams.get "openid.claimed_id" params) as [claimed|];
    [|now left].
  destruct (falsy claimed) eqn:Hf; [now left|].
  right. exists claimed. split; [reflexivity|].
  split; [now apply falsy_false|].
  unfold mbind, M_bind, callDiscover.
  destruct (discover _) as [|providers]; [reflexivity|].
  destruct (noProviders providers); [reflexivity|].
  destruct (_ || _); reflexivity.
Qed.

(** X6: [validateResponse] calls [discover] at most once, only after the
    nonce check has passed, and then on the claimed identifier cut at its
    first [#]; it never moves the clock. *)
Theorem validateResponse_discovery (discover : string -> discovery)
    (responseUrl returnUrl : string) (w : World) :
  now (snd (validateResponse P discover responseUrl returnUrl w)) = now w
  /\ (queries (snd (validateResponse P discover responseUrl returnUrl w))
      = queries w
      \/ exists u claimed,
           newURL P (trim responseUrl) = Some u
           /\ fst (checkNonce P (searchParams u) w) = Ok tt
           /\ SearchParams.get "openid.claimed_id" (searchParams u)
              = Some claimed
           /\ claimed <> ""
           /\ queries (snd (validateResponse P discover responseUrl returnUrl w))
              = (queries w ++ [getCanonicalClaimedIdentifier claimed])%list).
Proof.
  rewrite validateResponse_stages.
  destruct (newURL P (trim responseUrl)) as [u|] eqn:Hu;
    [|split; [|left]; reflexivity].
  destruct (checkReturnUrlsAreValid P u returnUrl) as [[]|e1];
    [|split; [|left]; reflexivity].
  destruct (checkParams (Some (searchParams u))) as [[]|e2];
    [|split; [|left]; reflexivity].
  pose proof (checkNonce_frame P (searchParams u) w) as [Hnow Hq].
  destruct (checkNonce P (searchParams u) w) as [[[]|e3] wn] eqn:Hn;
    cbn [snd fst] in *; [|split; [exact Hnow | left; exact Hq]].
  destruct (verifyDiscoveredInformation_world discover (searchParams u) wn)
    as [->|[claimed [Hc [Hne ->]]]].
  - split; [exact Hnow | left; exact Hq].
  - cbn [now queries]. split; [exact Hnow|]. right. exists u, claimed.
    rewrite Hn, Hq. auto.
Qed.

End ValidationFacts.

Section AcceptanceFacts.

Variable P : Platform.

Local Open Scope string_scope.

(** X7: what an accepted response has been checked for. [returnUrl] is not
    empty and agrees in scheme, host and path with the response's
    [openid.return_to]; [openid.mode] is neither [error] nor [cancel]; the
    nonce check passed; [openid.claimed_id], [openid.signed] and [openid.sig]
    are present and not empty; discovery of the claimed identifier cut at
    its first [#] resolved to a non-empty provider list; and the result is
    authenticated, with the claimed identifier as received. *)
Theorem validateResponse_accepts_only (discover : string -> discovery)
    (responseUrl returnUrl : string) (w w' : World) (r : ProviderResponse) :
  validateResponse P discover responseUrl returnUrl w = (Ok r, w') ->
  exists u returnTo parsedReturnTo parsedClient claimed signed sig provider rest,
    newURL P (trim responseUrl) = Some u
    /\ returnUrl <> ""
    /\ SearchParams.get "openid.return_to" (searchParams u) = Some returnTo
    /\ newURL P returnTo = Some parsedReturnTo
    /\ newURL P returnUrl = Some parsedClient
    /\ protocol parsedClient = protocol parsedReturnTo
    /\ host parsedClient = host parsedReturnTo
    /\ pathname parsedClient = pathname parsedReturnTo
    /\ SearchParams.get "openid.mode" (searchParams u) <> Some "error"
    /\ SearchParams.get "openid.mode" (searchParams u) <> Some "cancel"
    /\ fst (checkNonce P (searchParams u) w) = Ok tt
    /\ SearchParams.get "openid.claimed_id" (searchParams u) = Some claimed
    /\ claimed <> ""
    /\ SearchParams.get "openid.signed" (searchParams u) = Some signed
    /\ signed <> ""
    /\ SearchParams.get "openid.sig" (searchParams u) = Some sig
    /\ sig <> ""
    /\ discover (getCanonicalClaimedIdentifier claimed)
       = Resolved (Some (provider :: rest))
    /\ r = mkProviderResponse (Some true) (Some claimed).
Proof.
  intros H. apply validateResponse_ok in H as [u [wn [Hu [Hr [Hp [Hn Hv]]]]]].
  apply checkReturnUrlsAreValid_ok in Hr
    as [Hret [rt [prt [pc [Hg [_ [Hprt [Hpc [H1 [H2 H3]]]]]]]]]].
  apply checkParams_ok in Hp as [Hm1 Hm2].
  revert Hv. unfold verifyDiscoveredInformation.
  destruct (SearchParams.get "openid.claimed_id" (searchParams u))
    as [claimed|] eqn:Hc; [|discriminate].
  destruct (falsy claimed) eqn:Hf; [discriminate|].
  unfold mbind, M_bind, callDiscover.
  destruct (discover (getCanonicalClaimedIdentifier claimed))
    as [|[[|provider rest]|]] eqn:Hd; try discriminate.
  cbn [noProviders].
  destruct (SearchParams.get "openid.signed" (searchParams u))
    as [signed|] eqn:Hs; [|discriminate].
  destruct (SearchParams.get "openid.sig" (searchParams u))
    as [sig|] eqn:Hg'; cbn [missing];
    [|rewrite orb_true_r; discriminate].
  destruct (falsy signed) eqn:Hfs; [discriminate|].
  destruct (falsy sig) eqn:Hfg; [discriminate|].
  intros Hv. inversion Hv; subst.
  exists u, rt, prt, pc, claimed, signed, sig, provider, rest.
  rewrite Hn. apply falsy_false in Hf, Hfs, Hfg. auto 25.
Qed.

(** X8: a nonce is spent even when the call fails after the nonce check.
    When a response in 2.0 mode is rejected by the last step (no claimed
    identifier, no provider discovered, no signature, discovery rejected),
    its nonce is in the store, and sending the same response again while the
    nonce is within the window fails with [NonceReplayed], whatever discovery
    answers then. *)
Theorem failed_verification_spends_nonce (d1 d2 : string -> discovery)
    (responseUrl returnUrl : string) (w w1 : World) (e : error) (u : URL)
    (t2 : Z) :
  newURL P (trim responseUrl) = Some u ->
  isOpenId1 (searchParams u) = false ->
  validateResponse P d1 responseUrl returnUrl w = (Err e, w1) ->
  failedStage e = Some VerificationStage ->
  exists nonce ts,
    SearchParams.get "openid.response_nonce" (searchParams u) = Some nonce
    /\ embeddedTimestamp P nonce = Some ts
    /\ nonces w1 !! nonce = Some ts
    /\ (Z.abs (t2 - ts) <= 300000 ->
        fst (validateResponse P d2 responseUrl returnUrl (at_time t2 w1))
        = Err NonceReplayed).
Proof.
  intros Hu Hv H He. rewrite validateResponse_stages, Hu in H.
  destruct (checkReturnUrlsAreValid P u returnUrl) as [[]|e1] eqn:Hr.
  2:{ inversion H; subst.
      rewrite (checkReturnUrlsAreValid_stage P _ _ _ Hr) in He. discriminate. }
  destruct (checkParams (Some (searchParams u))) as [[]|e2] eqn:Hp.
  2:{ inversion H; subst. rewrite (checkParams_stage _ _ Hp) in He.
      discriminate. }
  destruct (checkNonce P (searchParams u) w) as [[[]|e3] wn] eqn:Hn.
  2:{ inversion H; subst. rewrite (checkNonce_stage P _ _ _ _ Hn) in He.
      discriminate. }
  apply (checkNonce_ok P _ _ _ Hv) in Hn
    as [nonce [stamp [tail [ts [Hg [Hm [Hts [Hle [Hnone Hwn]]]]]]]]].
  pose proof (verifyDiscoveredInformation_nonces d1 (searchParams u) wn)
    as Hsame. rewrite H in Hsame. cbn [snd] in Hsame.
  assert (Hin : nonces w1 !! nonce = Some ts).
  { rewrite Hsame, Hwn. cbn [nonces]. apply lookup_insert_eq. }
  exists nonce, ts. split; [exact Hg|].
  split; [unfold embeddedTimestamp; now rewrite Hm|].
  split; [exact Hin|]. intros Hle2.
  apply (stored_nonce_is_replayed P d2 responseUrl returnUrl (at_time t2 w1) u
           nonce stamp tail ts ts Hu Hr Hp Hv Hg Hm Hts); [exact Hle2|].
  apply sweptNonces_lookup. split; [exact Hin | exact Hle2].
Qed.

(** X9: a response in OpenID 1.x mode (an [openid.ns] without [2.0]) is
    not protected against replay: when it is accepted, the nonce store is
    as before, and the same response is accepted again at any later time as
    long as discovery answers the same. *)
Theorem openid1_response_is_replayable (discover : string -> discovery)
    (responseUrl returnUrl : string) (w w1 : World) (r : ProviderResponse)
    (u : URL) (t2 : Z) :
  newURL P (trim responseUrl) = Some u ->
  isOpenId1 (searchParams u) = true ->
  validateResponse P discover responseUrl returnUrl w = (Ok r, w1) ->
  nonces w1 = nonces w
  /\ fst (validateResponse P discover responseUrl returnUrl (at_time t2 w1))
     = Ok r.
Proof.
  intros Hu Hv H.
  apply validateResponse_ok in H as [u' [wn [Hu' [Hr [Hp [Hn Hd]]]]]].
  rewrite Hu in Hu'. inversion Hu'; subst u'. clear Hu'.
  assert (Hskip : forall w0, checkNonce P (searchParams u) w0 = (Ok tt, w0)).
  { intros w0. unfold checkNonce. now rewrite Hv. }
  rewrite Hskip in Hn. inversion Hn; subst wn.
  pose proof (verifyDiscoveredInformation_nonces discover (searchParams u) w)
    as Hsame. rewrite Hd in Hsame. cbn [snd] in Hsame.
  split; [exact Hsame|].
  rewrite validateResponse_stages, Hu, Hr, Hp, Hskip.
  rewrite (verifyDiscoveredInformation_result discover (searchParams u)
             (at_time t2 w1) w).
  now rewrite Hd.
Qed.

(** X10: the values of [openid.signed] and [openid.sig] are never looked
    at beyond being present and not empty: two responses that both pass the
    binding check and agree on every parameter but these two, each carrying
    some non-empty value for both, are treated alike, result and state. *)
Theorem signature_values_are_not_inspected (discover : string -> discovery)
    (url1 url2 returnUrl : string) (w : World) (u1 u2 : URL) :
  newURL P (trim url1) = Some u1 ->
  newURL P (trim url2) = Some u2 ->
  checkReturnUrlsAreValid P u1 returnUrl = Ok tt ->
  checkReturnUrlsAreValid P u2 returnUrl = Ok tt ->
  (forall name, name <> "openid.signed" -> name <> "openid.sig" ->
     SearchParams.get name (searchParams u1)
     = SearchParams.get name (searchParams u2)) ->
  missing (SearchParams.get "openid.signed" (searchParams u1)) = false ->
  missing (SearchParams.get "openid.sig" (searchParams u1)) = false ->
  missing (SearchParams.get "openid.signed" (searchParams u2)) = false ->
  missing (SearchParams.get "openid.sig" (searchParams u2)) = false ->
  validateResponse P discover url1 returnUrl w
  = validateResponse P discover url2 returnUrl w.
Proof.
  intros Hu1 Hu2 Hr1 Hr2 Hsame Hs1 Hg1 Hs2 Hg2.
  rewrite !validateResponse_stages, Hu1, Hu2, Hr1, Hr2.
  assert (Hget : forall name, (name =? "openid.signed") = false ->
                              (name =? "openid.sig") = false ->
                              SearchParams.get name (searchParams u1)
                              = SearchParams.get name (searchParams u2)).
  { intros name H1 H2. apply Hsame; intros ->; discriminate. }
  assert (Hparams : checkParams (Some (searchParams u1))
                    = checkParams (Some (searchParams u2))).
  { unfold checkParams. now rewrite !(Hget "openid.mode"), (Hget "openid.error"). }
  assert (Hnonce : checkNonce P (searchParams u1) w
                   = checkNonce P (searchParams u2) w).
  { unfold checkNonce, isOpenId1, SearchParams.has.
    now rewrite !(Hget "openid.ns"), (Hget "openid.response_nonce"). }
  rewrite Hparams, Hnonce.
  destruct (checkParams (Some (searchParams u2))); [|reflexivity].
  destruct (checkNonce P (searchParams u2) w) as [[[]|e] wn]; [|reflexivity].
  unfold verifyDiscoveredInformation.
  rewrite (Hget "openid.claimed_id") by reflexivity.
  now rewrite Hs1, Hg1, Hs2, Hg2.
Qed.

(** X11: scheme, host, path and fragment of the response URL itself are
    never looked at: two response URLs with the same query string and
    parameters are treated alike, result and state. *)
Theorem response_location_is_not_inspected (discover : string -> discovery)
    (url1 url2 returnUrl : string) (w : World) (u1 u2 : URL) :
  newURL P (trim url1) = Some u1 ->
  newURL P (trim url2) = Some u2 ->
  search u1 = search u2 ->
  searchParams u1 = searchParams u2 ->
  validateResponse P discover url1 returnUrl w
  = validateResponse P discover url2 returnUrl w.
Proof.
  intros Hu1 Hu2 Hs Hp. rewrite !validateResponse_stages, Hu1, Hu2.
  unfold checkReturnUrlsAreValid. now rewrite Hs, Hp.
Qed.

End AcceptanceFacts.

(** ** The nonce check and the sweep *)

Section NonceFacts.

Variable P : Platform.

Local Open Scope string_scope.

Lemma matchAtoms_app (p : list atom) :
  forall s m tail,
    matchAtoms p s = Some (m, tail) ->
    s = m ++ tail /\ String.length m = List.length p.
Proof.
  induction p as [|a p IH]; cbn [matchAtoms]; intros s m tail H.
  - inversion H. split; reflexivity.
  - destruct s as [|c s]; [discriminate|].
    destruct (atomMatches a c); [|discriminate].
    destruct (matchAtoms p s) as [[m' tail']|] eqn:Hm; [|discriminate].
    inversion H; subst. destruct (IH _ _ _ Hm) as [-> Hlen].
    split; [reflexivity|]. cbn [String.length List.length]. now rewrite Hlen.
Qed.

(** X12: what the nonce pattern accepts. A match splits the text into a
    first group of exactly 20 characters, none of them a dot, and a rest
    without line feed or carriage return; so a nonce with fractional seconds
    or with a line break after its timestamp does not match. *)
Theorem matchNonce_shape (s stamp tail : string) :
  matchNonce s = Some (stamp, tail) ->
  s = stamp ++ tail
  /\ String.length stamp = 20%nat
  /\ includes stamp "." = false
  /\ indexOf tail "010" = -1
  /\ indexOf tail "013" = -1.
Proof.
  intros H. pose proof (matchNonce_stamp _ _ _ H) as [_ Hdot].
  unfold matchNonce in H.
  destruct (matchAtoms timestampAtoms s) as [[m t]|] eqn:Hm; [|discriminate].
  destruct (dotStar t) eqn:Ht; [|discriminate]. inversion H; subst.
  destruct (matchAtoms_app _ _ _ _ Hm) as [Hs Hlen].
  split; [exact Hs|]. split; [exact Hlen|]. split; [exact Hdot|].
  clear -Ht. induction tail as [|c tail IH]; [split; reflexivity|].
  cbn [dotStar] in Ht. apply andb_true_iff in Ht as [Hc Ht].
  destruct (IH Ht) as [IH1 IH2]. cbn [indexOf]. rewrite IH1, IH2.
  unfold isLineTerminator in Hc.
  destruct (Ascii.eqb_spec c "010") as [->|_]; [discriminate|].
  destruct (Ascii.eqb_spec c "013") as [->|_]; [discriminate|].
  split; reflexivity.
Qed.

(** X13: the two format failures of [checkNonce]. [MissingNonce] exactly
    when the nonce check applies and [openid.response_nonce] is absent or
    empty; [InvalidNonceFormat] exactly when it applies and the trimmed nonce
    does not match the pattern (the test for a dot in the matched timestamp
    never decides anything). Neither touches the client. *)
Theorem checkNonce_format_failures (params : URLSearchParams) (w : World) :
  (fst (checkNonce P params w) = Err MissingNonce
   <-> isOpenId1 params = false
       /\ missing (SearchParams.get "openid.response_nonce" params) = true)
  /\ (fst (checkNonce P params w) = Err InvalidNonceFormat
      <-> isOpenId1 params = false
          /\ exists nonce,
               SearchParams.get "openid.response_nonce" params = Some nonce
               /\ nonce <> ""
               /\ matchNonce (trim nonce) = None)
  /\ (fst (checkNonce P params w) = Err MissingNonce
      \/ fst (checkNonce P params w) = Err InvalidNonceFormat ->
      snd (checkNonce P params w) = w).
Proof.
  unfold checkNonce. destruct (isOpenId1 params).
  { split; [|split]; [split; [discriminate|intros [? _]; discriminate]..|].
    intros [H|H]; discriminate. }
  destruct (SearchParams.get "openid.response_nonce" params) as [nonce|];
    cbn [missing].
  2:{ split; [|split].
      - split; auto.
      - split; [discriminate|]. intros [_ [n [H _]]]. discriminate.
      - reflexivity. }
  destruct (falsy nonce) eqn:Hf.
  { split; [|split].
    - split; auto.
    - split; [discriminate|]. intros [_ [n [H [Hne _]]]]. inversion H; subst.
      apply falsy_true in Hf. contradiction.
    - reflexivity. }
  destruct (matchNonce (trim nonce)) as [[stamp tail]|] eqn:Hm.
  2:{ split; [|split].
      - split; [discriminate|intros [_ H]; discriminate].
      - split; [|reflexivity]. intros _. split; [reflexivity|].
        exists nonce. split; [reflexivity|]. split; [now apply falsy_false|].
        exact Hm.
      - reflexivity. }
  destruct (matchNonce_stamp _ _ _ Hm) as [-> ->]. cbn [orb].
  assert (Hrest : forall out : result unit * World,
             fst out <> Err MissingNonce ->
             fst out <> Err InvalidNonceFormat ->
             (fst out = Err MissingNonce <-> false = false /\ false = true)
             /\ (fst out = Err InvalidNonceFormat
                 <-> false = false
                     /\ exists n, Some nonce = Some n /\ n <> ""
                                  /\ matchNonce (trim n) = None)
             /\ (fst out = Err MissingNonce \/ fst out = Err InvalidNonceFormat
                 -> snd out = w)).
  { intros out H1 H2. split; [|split].
    - split; [contradiction|intros [_ H]; discriminate].
    - split; [contradiction|]. intros [_ [n [H [_ Hn]]]]. inversion H; subst.
      congruence.
    - intros [H|H]; contradiction. }
  destruct (dateGetTime P stamp) as [ts|]; [|apply Hrest; discriminate].
  unfold mbind, M_bind. rewrite removeOldNonces_world.
  unfold dateNow, nonceKnown, storeNonce, mthrow, M_throw.
  cbn [now nonces]. destruct (_ >? _); [apply Hrest; discriminate|].
  destruct (hasProperty nonce _); apply Hrest; discriminate.
Qed.

(** X14: when the nonce check applies and the timestamp parses,
    [checkNonce] reports a replay exactly when the timestamp is within the
    window and the token, as received, is an entry of the store that the
    sweep keeps. A name inherited from [Object.prototype] is never taken for
    a stored nonce, and a stored nonce outside the window is never found:
    it has been swept. *)
Theorem checkNonce_replayed_iff (params : URLSearchParams) (w : World)
    (nonce stamp tail : string) (ts : Z) :
  isOpenId1 params = false ->
  SearchParams.get "openid.response_nonce" params = Some nonce ->
  matchNonce (trim nonce) = Some (stamp, tail) ->
  dateGetTime P stamp = Some ts ->
  (fst (checkNonce P params w) = Err NonceReplayed
   <-> Z.abs (now w - ts) <= 300000
       /\ exists d, nonces w !! nonce = Some d /\ Z.abs (now w - d) <= 300000).
Proof.
  intros Hv Hn Hm Hd. rewrite (checkNonce_checked P _ w _ _ _ _ Hv Hn Hm Hd).
  unfold FIVE_MINUTES_IN_MS.
  destruct (Z.gtb_spec (Z.abs (now w - ts)) 300000) as [Hgt|Hle].
  { split; [discriminate | lia]. }
  destruct (hasProperty nonce (sweptNonces w)) eqn:Hk; cbn [fst].
  - apply (hasProperty_own _ _ _ Hm) in Hk as [d Hin].
    apply sweptNonces_lookup in Hin. split; [|reflexivity].
    intros _. split; [exact Hle|]. exists d. exact Hin.
  - split; [discriminate|]. intros [_ [d Hin]].
    apply sweptNonces_lookup in Hin.
    rewrite (hasProperty_lookup _ _ _ Hin) in Hk. discriminate.
Qed.

(** X15: the sweep only removes, keeps every entry within the window, and
    sweeping again at the same instant changes nothing; a store whose
    entries are all within the window is left as it is. *)
Theorem removeOldNonces_sweep (w : World) :
  sweptNonces w ⊆ nonces w
  /\ sweptNonces (snd (removeOldNonces w)) = sweptNonces w
  /\ (freshAt (now w) (nonces w) -> sweptNonces w = nonces w)
  /\ (size (sweptNonces w) <= size (nonces w))%nat.
Proof.
  assert (Hsub : sweptNonces w ⊆ nonces w).
  { apply map_subseteq_spec. intros k d H. now apply sweptNonces_lookup in H. }
  split; [exact Hsub|]. split; [|split].
  - apply map_eq. intros k. rewrite removeOldNonces_world.
    destruct (sweptNonces w !! k) as [d|] eqn:E.
    + apply sweptNonces_lookup. cbn [nonces now]. split; [exact E|].
      now apply sweptNonces_lookup in E.
    + apply sweptNonces_None. exact E.
  - intros Hfresh. apply map_eq. intros k.
    destruct (nonces w !! k) as [d|] eqn:E.
    + apply sweptNonces_lookup. split; [exact E | exact (Hfresh k d E)].
    + now apply sweptNonces_None.
  - now apply map_subseteq_size.
Qed.

(** X16: a call of [validateResponse] adds at most one entry to the nonce
    store. *)
Theorem validateResponse_store_growth (discover : string -> discovery)
    (responseUrl returnUrl : string) (w : World) :
  (size (nonces (snd (validateResponse P discover responseUrl returnUrl w)))
   <= S (size (nonces w)))%nat.
Proof.
  destruct (validateResponse_nonces P discover responseUrl returnUrl w)
    as [->|[params ->]]; [lia|].
  pose proof (map_subseteq_size (sweptNonces w) (nonces w)) as Hsize.
  assert (Hsub : sweptNonces w ⊆ nonces w).
  { apply map_subseteq_spec. intros k d H. now apply sweptNonces_lookup in H. }
  specialize (Hsize Hsub).
  destruct (checkNonce_cases P params w)
    as [[_ ->]|[[_ [e' [-> He]]]|[Hv [nonce [stamp [tail [ts [Hn [Hm Hd]]]]]]]]];
    [cbn [snd]; lia | cbn [snd]; lia |].
  rewrite (checkNonce_checked P _ w _ _ _ _ Hv Hn Hm Hd).
  destruct (_ >? _); [cbn [snd nonces]; lia|].
  destruct (hasProperty nonce (sweptNonces w)) eqn:Hk; [cbn [snd nonces]; lia|].
  cbn [snd nonces].
  destruct (sweptNonces w !! nonce) as [d|] eqn:E.
  - rewrite (map_size_insert_Some nonce ts (sweptNonces w)) by eauto. lia.
  - rewrite (map_size_insert_None nonce ts (sweptNonces w) E). lia.
Qed.

End NonceFacts.

(** ** Strings the client cuts and trims *)

Section CuttingFacts.

Variable P : Platform.

Local Open Scope string_scope.

Lemma indexOf_split (s : string) (c : ascii) :
  indexOf s c = -1
  \/ exists a b, s = a ++ String c b /\ indexOf a c = -1.
Proof.
  induction s as [|x s IH]; [now left|]. cbn [indexOf].
  destruct (Ascii.eqb_spec x c) as [->|Hne].
  - right. exists "", s. split; reflexivity.
  - destruct IH as [->|[a [b [-> Ha]]]]; [now left|].
    right. exists (String x a), b. split; [reflexivity|].
    cbn [indexOf]. destruct (Ascii.eqb_spec x c); [contradiction|].
    now rewrite Ha.
Qed.

Lemma canonical_of_fragment (a b : string) :
  indexOf a "#" = -1 ->
  getCanonicalClaimedIdentifier (a ++ String "#" b) = a.
Proof.
  intros Ha. unfold getCanonicalClaimedIdentifier.
  destruct (indexOf_app a b "#" Ha) as [-> Hs].
  destruct (Z.of_nat (String.length a) =? -1)%Z eqn:E.
  - apply Z.eqb_eq in E. lia.
  - cbn [negb]. rewrite Z.max_r by lia. exact Hs.
Qed.

Lemma canonical_without_fragment (s : string) :
  indexOf s "#" = -1 -> getCanonicalClaimedIdentifier s = s.
Proof. unfold getCanonicalClaimedIdentifier. now intros ->. Qed.

(** X17: [getCanonicalClaimedIdentifier] returns an identifier without
    [#] unchanged and otherwise exactly the text before the first [#]; its
    result never contains a [#], and applying it twice is applying it
    once. *)
Theorem getCanonicalClaimedIdentifier_cut (s : string) :
  indexOf (getCanonicalClaimedIdentifier s) "#" = -1
  /\ getCanonicalClaimedIdentifier (getCanonicalClaimedIdentifier s)
     = getCanonicalClaimedIdentifier s
  /\ (indexOf s "#" = -1 -> getCanonicalClaimedIdentifier s = s)
  /\ (getCanonicalClaimedIdentifier s = s
      \/ exists rest, s = getCanonicalClaimedIdentifier s ++ String "#" rest).
Proof.
  destruct (indexOf_split s "#") as [Hs|[a [b [-> Ha]]]].
  - rewrite (canonical_without_fragment s Hs).
    split; [exact Hs|]. split; [exact (canonical_without_fragment s Hs)|].
    split; [reflexivity|]. now left.
  - rewrite (canonical_of_fragment a b Ha).
    split; [exact Ha|]. split; [exact (canonical_without_fragment a Ha)|].
    split.
    + intros H. destruct (indexOf_app a b "#" Ha) as [Hi _].
      rewrite Hi in H. lia.
    + right. exists b. reflexivity.
Qed.

Lemma trimStart_padding (pad s : string) :
  allWhiteSpace pad = true -> trimStart (pad ++ s) = trimStart s.
Proof.
  induction pad as [|c pad IH]; [reflexivity|]. cbn [allWhiteSpace].
  intros H. apply andb_true_iff in H as [Hc Hp].
  change (String c pad ++ s) with (String c (pad ++ s)).
  cbn [trimStart]. rewrite Hc. exact (IH Hp).
Qed.

Lemma trimEnd_white (pad : string) :
  allWhiteSpace pad = true -> trimEnd pad = "".
Proof.
  induction pad as [|c pad IH]; [reflexivity|]. cbn [allWhiteSpace trimEnd].
  intros H. apply andb_true_iff in H as [Hc Hp]. now rewrite (IH Hp), Hc.
Qed.

Lemma trimEnd_padding (s pad : string) :
  allWhiteSpace pad = true -> trimEnd (s ++ pad) = trimEnd s.
Proof.
  intros Hp. induction s as [|c s IH].
  - exact (trimEnd_white pad Hp).
  - change (String c s ++ pad) with (String c (s ++ pad)).
    cbn [trimEnd]. now rewrite IH.
Qed.

Lemma trim_padding_right (s pad : string) :
  allWhiteSpace pad = true -> trim (s ++ pad) = trim s.
Proof.
  intros Hp. unfold trim. induction s as [|c s IH].
  - cbn [String.append]. 
    assert (Hs : trimStart pad = "").
    { clear -Hp. induction pad as [|c pad IH]; [reflexivity|].
      cbn [allWhiteSpace] in Hp. apply andb_true_iff in Hp as [Hc Hp].
      cbn [trimStart]. rewrite Hc. exact (IH Hp). }
    change ("" ++ pad) with pad. now rewrite Hs.
  - change (String c s ++ pad) with (String c (s ++ pad)).
    cbn [trimStart]. destruct (isWhiteSpace c); [exact IH|].
    exact (trimEnd_padding (String c s) pad Hp).
Qed.

Lemma trim_padding (left s right : string) :
  allWhiteSpace left = true -> allWhiteSpace right = true ->
  trim (left ++ s ++ right) = trim s.
Proof.
  intros Hl Hr. unfold trim. rewrite (trimStart_padding left _ Hl).
  exact (trim_padding_right s right Hr).
Qed.

(** X18: white space around the response URL is ignored: padded on either
    side with tabs, line breaks, spaces or no-break spaces, a response URL is
    treated as the bare one, result and state. *)
Theorem validateResponse_ignores_padding (discover : string -> discovery)
    (left responseUrl right returnUrl : string) (w : World) :
  allWhiteSpace left = true ->
  allWhiteSpace right = true ->
  validateResponse P discover (left ++ responseUrl ++ right) returnUrl w
  = validateResponse P discover responseUrl returnUrl w.
Proof.
  intros Hl Hr. unfold validateResponse.
  now rewrite (trim_padding left responseUrl right Hl Hr).
Qed.

(** X19: once both return URLs parse, the binding check fails with
    [ReturnUrlMismatch] exactly when [returnUrl] and the response's
    [openid.return_to] differ in scheme, in host or in path; their queries
    and fragments play no part in it. *)
Theorem checkReturnUrlsAreValid_mismatch (u : URL)
    (returnUrl returnTo : string) (parsedReturnTo parsedClient : URL) :
  returnUrl <> "" ->
  SearchParams.get "openid.return_to" (searchParams u) = Some returnTo ->
  returnTo <> "" ->
  newURL P returnTo = Some parsedReturnTo ->
  newURL P returnUrl = Some parsedClient ->
  (checkReturnUrlsAreValid P u returnUrl = Err ReturnUrlMismatch
   <-> protocol parsedClient <> protocol parsedReturnTo
       \/ host parsedClient <> host parsedReturnTo
       \/ pathname parsedClient <> pathname parsedReturnTo).
Proof.
  intros Hr Hg Hrt Hpr Hpc. unfold checkReturnUrlsAreValid, parseURL.
  apply falsy_false in Hr. apply falsy_false in Hrt.
  rewrite Hr, Hg, Hrt, Hpr, Hpc.
  destruct (String.eqb_spec (protocol parsedClient) (protocol parsedReturnTo));
    cbn [negb orb]; [|split; [auto | reflexivity]].
  destruct (String.eqb_spec (host parsedClient) (host parsedReturnTo));
    cbn [negb orb]; [|split; [auto | reflexivity]].
  destruct (String.eqb_spec (pathname parsedClient) (pathname parsedReturnTo));
    cbn [negb orb]; [|split; [auto | reflexivity]].
  split; [|intros [H|[H|H]]; contradiction].
  destruct (_ && _ && _); discriminate.
Qed.

End CuttingFacts.

(** ** Further runs on the executable platform *)

Section FurtherRuns.

Local Open Scope string_scope.

(** X1 at work: the endpoint's query goes, its fragment stays. *)
Lemma buildUrl_replaces_query_witness :
  buildUrl Model.platform "https://steamcommunity.com/openid/login?lang=en#top"
    Scenario.someParams
  = Ok "https://steamcommunity.com/openid/login?b=2&a=1+1&c=#top".
Proof.
  rewrite (buildUrl_replaces_query Model.platform
             "https://steamcommunity.com/openid/login?lang=en#top"
             Scenario.someParams).
  - vm_compute. reflexivity.
  - repeat constructor; simpl; intuition discriminate.
Defined.

(** X4 at work: a response bound to another path leaves the client alone. *)
Lemma validateResponse_failure_effect_witness :
  snd (Scenario.validate Scenario.responseUrlOtherPath Scenario.returnUrl
         Scenario.client)
  = Scenario.client.
Proof.
  assert (H : validateResponse Model.platform Model.discover
                Scenario.responseUrlOtherPath Scenario.returnUrl Scenario.client
              = (Err ReturnUrlMismatch,
                 snd (Scenario.validate Scenario.responseUrlOtherPath
                        Scenario.returnUrl Scenario.client)))
    by (vm_compute; reflexivity).
  exact (validateResponse_failure_effect Model.platform Model.discover
           Scenario.responseUrlOtherPath Scenario.returnUrl Scenario.client
           _ ReturnUrlMismatch H).
Defined.

(** X5 at work. *)
Lemma validateResponse_provider_error_witness :
  Scenario.validate Scenario.responseUrlError Scenario.returnUrl Scenario.client
  = (Err (ProviderError (Some "denied")), Scenario.client).
Proof.
  destruct (Model.newURL (trim Scenario.responseUrlError)) as [u|] eqn:Hu;
    [|vm_compute in Hu; discriminate].
  unfold Scenario.validate.
  rewrite (validateResponse_provider_error Model.platform Model.discover
             Scenario.responseUrlError Scenario.returnUrl Scenario.client u Hu).
  - vm_compute in Hu. inversion Hu. vm_compute. reflexivity.
  - vm_compute in Hu. inversion Hu. vm_compute. reflexivity.
  - vm_compute in Hu. inversion Hu. vm_compute. reflexivity.
Defined.

(** X7 at work: the accepted response of the first validation. *)
Lemma validateResponse_accepts_only_witness :
  exists claimed sig,
    claimed <> "" /\ sig <> ""
    /\ Scenario.verified = mkProviderResponse (Some true) (Some claimed).
Proof.
  assert (H : validateResponse Model.platform Model.discover
                Scenario.responseUrl Scenario.returnUrl Scenario.client
              = (Ok Scenario.verified, snd Scenario.first))
    by (vm_compute; reflexivity).
  destruct (validateResponse_accepts_only Model.platform Model.discover
              Scenario.responseUrl Scenario.returnUrl Scenario.client _
              Scenario.verified H)
    as (u & rt & prt & pc & claimed & signed & sig & provider & rest & Hall).
  exists claimed, sig. tauto.
Defined.

(** X8 at work: the unsigned response is rejected for its missing
    signature, and one minute later for its spent nonce. *)
Lemma failed_verification_spends_nonce_witness :
  fst (Scenario.validate Scenario.responseUrlUnsigned Scenario.returnUrl
         Scenario.client)
  = Err MissingSignature
  /\ fst (Scenario.validate Scenario.responseUrlUnsigned Scenario.returnUrl
            (at_time (Scenario.stamp + 120000)
               (snd (Scenario.validate Scenario.responseUrlUnsigned
                       Scenario.returnUrl Scenario.client))))
     = Err NonceReplayed.
Proof.
  split; [vm_compute; reflexivity|].
  destruct (Model.newURL (trim Scenario.responseUrlUnsigned)) as [u|] eqn:Hu;
    [|vm_compute in Hu; discriminate].
  destruct (failed_verification_spends_nonce Model.platform Model.discover
              Model.discover Scenario.responseUrlUnsigned Scenario.returnUrl
              Scenario.client
              (snd (Scenario.validate Scenario.responseUrlUnsigned
                      Scenario.returnUrl Scenario.client))
              MissingSignature u (Scenario.stamp + 120000) Hu)
    as [nonce [ts [Hg [He [_ Hreplay]]]]].
  - vm_compute in Hu. inversion Hu. vm_compute. reflexivity.
  - vm_compute. reflexivity.
  - reflexivity.
  - apply Hreplay. vm_compute in Hu. inversion Hu; subst u.
    vm_compute in Hg. inversion Hg; subst nonce.
    vm_compute in He. inversion He; subst ts. vm_compute. discriminate.
Defined.

(** X9 at work: the 1.1 response is accepted, and again days later. *)
Lemma openid1_response_is_replayable_witness :
  fst (Scenario.validate Scenario.responseUrl1x Scenario.returnUrl
         Scenario.client)
  = Ok Scenario.verified1x
  /\ fst (Scenario.validate Scenario.responseUrl1x Scenario.returnUrl
            (at_time (Scenario.stamp + 1000000000)
               (snd (Scenario.validate Scenario.responseUrl1x
                       Scenario.returnUrl Scenario.client))))
     = Ok Scenario.verified1x.
Proof.
  split; [vm_compute; reflexivity|].
  destruct (Model.newURL (trim Scenario.responseUrl1x)) as [u|] eqn:Hu;
    [|vm_compute in Hu; discriminate].
  apply (openid1_response_is_replayable Model.platform Model.discover
           Scenario.responseUrl1x Scenario.returnUrl Scenario.client
           (snd (Scenario.validate Scenario.responseUrl1x Scenario.returnUrl
                   Scenario.client))
           Scenario.verified1x u (Scenario.stamp + 1000000000) Hu).
  - vm_compute in Hu. inversion Hu. vm_compute. reflexivity.
  - vm_compute. reflexivity.
Defined.

(** X10 at work: other signature values, the same outcome. *)
Lemma signature_values_are_not_inspected_witness :
  Scenario.validate Scenario.responseUrlForged Scenario.returnUrl Scenario.client
  = Scenario.first.
Proof.
  destruct (Model.newURL (trim Scenario.responseUrlForged)) as [u1|] eqn:H1;
    [|vm_compute in H1; discriminate].
  destruct (Model.newURL (trim Scenario.responseUrl)) as [u2|] eqn:H2;
    [|vm_compute in H2; discriminate].
  pose proof H1 as E1. vm_compute in E1. injection E1 as E1.
  pose proof H2 as E2. vm_compute in E2. injection E2 as E2.
  subst u1 u2.
  apply (signature_values_are_not_inspected Model.platform Model.discover
           Scenario.responseUrlForged Scenario.responseUrl Scenario.returnUrl
           Scenario.client _ _ H1 H2); try (vm_compute; reflexivity).
  intros name Hs Hg. cbn [searchParams SearchParams.get].
  repeat match goal with
         | |- context [String.eqb ?k name] =>
             destruct (String.eqb_spec k name); [try reflexivity; congruence|]
         end.
  reflexivity.
Defined.

(** X11 at work: the same query on another host, the same outcome. *)
Lemma response_location_is_not_inspected_witness :
  Scenario.validate Scenario.responseUrlElsewhere Scenario.returnUrl
    Scenario.client
  = Scenario.first.
Proof.
  destruct (Model.newURL (trim Scenario.responseUrlElsewhere)) as [u1|] eqn:H1;
    [|vm_compute in H1; discriminate].
  destruct (Model.newURL (trim Scenario.responseUrl)) as [u2|] eqn:H2;
    [|vm_compute in H2; discriminate].
  apply (response_location_is_not_inspected Model.platform Model.discover
           Scenario.responseUrlElsewhere Scenario.responseUrl Scenario.returnUrl
           Scenario.client u1 u2 H1 H2);
    vm_compute in H1; vm_compute in H2; inversion H1; inversion H2;
    reflexivity.
Defined.

(** X12 at work. *)
Lemma matchNonce_shape_witness :
  String.length "2024-01-01T00:00:00Z" = 20%nat
  /\ includes "2024-01-01T00:00:00Z" "." = false
  /\ matchNonce "2024-01-01T00:00:00.5Zabc" = None.
Proof.
  destruct (matchNonce_shape "2024-01-01T00:00:00Zabc" "2024-01-01T00:00:00Z"
              "abc" eq_refl) as (_ & Hlen & Hdot & _).
  split; [exact Hlen|]. split; [exact Hdot|]. reflexivity.
Defined.

(** X14 at work: the nonce of the first validation, seen again. *)
Lemma checkNonce_replayed_iff_witness :
  fst (checkNonce Model.platform Scenario.nonceParams (snd Scenario.first))
  = Err NonceReplayed.
Proof.
  apply (checkNonce_replayed_iff Model.platform Scenario.nonceParams
           (snd Scenario.first) "2024-01-01T00:00:00Zabc"
           "2024-01-01T00:00:00Z" "abc" Scenario.stamp
           eq_refl eq_refl eq_refl eq_refl).
  split; [vm_compute; discriminate|]. exists Scenario.stamp.
  split; [vm_compute; reflexivity | vm_compute; discriminate].
Defined.

(** X18 at work: a space in front and a line feed behind. *)
Lemma validateResponse_ignores_padding_witness :
  Scenario.validate (" " ++ Scenario.responseUrl ++ String "010" "")
    Scenario.returnUrl Scenario.client
  = Scenario.first.
Proof.
  apply (validateResponse_ignores_padding Model.platform Model.discover
           " " Scenario.responseUrl (String "010" "") Scenario.returnUrl
           Scenario.client); reflexivity.
Defined.

(** X19 at work: [returnUrl] is [https://a.example/cb], the response was
    bound to [https://a.example/cb2]. *)
Lemma checkReturnUrlsAreValid_mismatch_witness :
  match Model.newURL (trim Scenario.responseUrlOtherPath) with
  | Some u =>
      checkReturnUrlsAreValid Model.platform u Scenario.returnUrl
      = Err ReturnUrlMismatch
  | None => False
  end.
Proof.
  destruct (Model.newURL (trim Scenario.responseUrlOtherPath)) as [u|] eqn:Hu;
    [|vm_compute in Hu; discriminate].
  destruct (Model.newURL "https://a.example/cb2") as [prt|] eqn:Hrt;
    [|vm_compute in Hrt; discriminate].
  destruct (Model.newURL Scenario.returnUrl) as [pc|] eqn:Hpc;
    [|vm_compute in Hpc; discriminate].
  apply (checkReturnUrlsAreValid_mismatch Model.platform u Scenario.returnUrl
           "https://a.example/cb2" prt pc); try assumption; try discriminate.
  - vm_compute in Hu. inversion Hu. reflexivity.
  - right. right. vm_compute in Hrt. vm_compute in Hpc.
    inversion Hrt. inversion Hpc. cbn [pathname]. discriminate.
Defined.

End FurtherRuns.
